(** * NextJS-TUS: resumable uploads with multipart reassembly

    A shallow embedding of the upload engine of the repository:

    - [src/lib/upload/utils/tus-file-utils.ts]: [getPartCount],
      [findOptimalBatch], [sanitizeFilename];
    - [src/lib/upload/services/tus-file-operations.ts]:
      [normalizeDestinationPath], [getFullFilePath], [getUniqueFilename],
      [moveFile], [checkDuplicateFile];
    - [src/lib/upload/utils/tus-filename-utils.ts]: the two strategy tables;
    - [src/lib/upload/services/tus-multipart-manager.ts]: the assembler;
    - [src/app/api/upload/[[...params]]/route.ts]: POST, PATCH, HEAD.

    JavaScript numbers that hold sizes and counts are modelled as [Z] (exact
    below 2^53, where doubles are exact too); [NaN] is [None] in an
    [option Z].  Strings are [string]s of code units below 256. *)

From Stdlib Require Import ZArith List String Ascii Bool Lia.
From stdpp Require Import base option list gmap strings pretty.

Local Open Scope Z_scope.

(** * Part I: the program *)

(** ** Partitioning policy: [getPartCount] (tus-file-utils.ts) *)

Definition MB : Z := 1024 * 1024.

(** [Math.ceil(a / b)] for an integer [a] and a power of two [b]: the double
    division is exact, so the result is the integer ceiling. *)
Definition ceil_div (a b : Z) : Z := - ((- a) / b).

Definition getPartCount (fileSize : Z) : Z :=
  if fileSize <=? 512 * MB then 1
  else if fileSize >? 4096 * MB then 8
  else ceil_div fileSize (512 * MB).

(** ** Batch selection: [findOptimalBatch] (tus-file-utils.ts) *)

Record FileWithParts : Type := mkFileWithParts
  { fw_id : string; fw_name : string; fw_size : Z; fw_parts : Z }.

(** The running best of the search: [(bestBatch, bestTotal)], the two
    variables the closure [backtrack] assigns. *)
Definition Best : Type := (list FileWithParts * Z)%type.

(** [backtrack currentBatch remainingFiles currentTotal startIndex].  The array
    [remainingFiles] is never modified and the loop reads only the indices
    from [startIndex] on, so the pair is carried as the suffix
    [rest = drop startIndex remainingFiles]; the recursive call at index [i]
    receives the suffix after [i].  The inner [loop] is the [for] statement. *)
Fixpoint backtrack (maxStreams : Z) (currentBatch : list FileWithParts)
    (rest : list FileWithParts) (currentTotal : Z) (best : Best)
    {struct rest} : Best :=
  if currentTotal >? maxStreams then best
  else
    let best1 :=
      if currentTotal >? snd best then (currentBatch, currentTotal) else best in
    (fix loop (l : list FileWithParts) (b : Best) {struct l} : Best :=
       match l with
       | [] => b
       | file :: l' =>
           let newTotal := currentTotal + fw_parts file in
           loop l'
             (if newTotal <=? maxStreams
              then backtrack maxStreams (currentBatch ++ [file]) l' newTotal b
              else b)
       end) rest best1.

Definition findOptimalBatch (files : list FileWithParts) (maxStreams : Z)
    : list FileWithParts :=
  if (length files =? 0)%nat then []
  else fst (backtrack maxStreams [] files 0 ([], 0)).

(** [batch.reduce((sum, file) => sum + file.parts, 0)] *)
Definition totalStreams (batch : list FileWithParts) : Z :=
  fold_left (fun sum file => sum + fw_parts file) batch 0.

(** *** The scheduler's selection step (useTusFileUpload, processQueueDynamic) *)

Inductive Status : Type := pending | uploading | completed | error.

Record QueuedFile : Type := mkQueuedFile
  { qf_id : string; qf_name : string; qf_size : Z; qf_status : Status }.

Definition is_pending (f : QueuedFile) : bool :=
  match qf_status f with pending => true | _ => false end.

Definition remainingFiles (queue : list QueuedFile) : list FileWithParts :=
  map (fun file =>
         {| fw_id := qf_id file; fw_name := qf_name file;
            fw_size := qf_size file; fw_parts := getPartCount (qf_size file) |})
      (filter (fun f => is_pending f = true) queue).

(** One turn of the driver loop up to the choice of the batch: [None] is the
    [break] on an empty pending list. *)
Definition selectBatch (remaining : list FileWithParts) (maxStreamCount : Z)
    : option (list FileWithParts) :=
  match remaining with
  | [] => None
  | first :: _ =>
      let batch := findOptimalBatch remaining maxStreamCount in
      Some (if (length batch =? 0)%nat then batch ++ [first] else batch)
  end.

(** ** Strings: [sanitizeFilename] and [normalizeDestinationPath] *)

(** A JavaScript string is read as its list of code units. *)
Definition chars (s : string) : list ascii := list_ascii_of_string s.
Definition str (l : list ascii) : string := string_of_list_ascii l.

Definition code (c : ascii) : N := N_of_ascii c.

Definition in_range (lo hi : N) (c : ascii) : bool :=
  ((lo <=? code c) && (code c <=? hi))%N.

(** The complement of [TUS_SERVER_CONFIG.filenameSanitizeRegex],
    [/[^a-zA-Z0-9._-]/g]: the characters the regex does not match. *)
Definition is_safe_char (c : ascii) : bool :=
  in_range 97 122 c || in_range 65 90 c || in_range 48 57 c
  || (code c =? 46)%N || (code c =? 95)%N || (code c =? 45)%N.

(** [filename.replace(filenameSanitizeRegex, "_")] *)
Definition sanitizeFilename (filename : string) : string :=
  str (map (fun c => if is_safe_char c then c else "_"%char) (chars filename)).

(** White space as [String.prototype.trim] sees it, among the code units
    below 256: TAB, LF, VT, FF, CR, SP and NBSP. *)
Definition is_white (c : ascii) : bool :=
  in_range 9 13 c || (code c =? 32)%N || (code c =? 160)%N.

Definition is_slash (c : ascii) : bool := (code c =? 47)%N.

Fixpoint dropWhile {A} (p : A -> bool) (l : list A) : list A :=
  match l with
  | [] => []
  | x :: l' => if p x then dropWhile p l' else l
  end.

Definition dropWhileEnd {A} (p : A -> bool) (l : list A) : list A :=
  rev (dropWhile p (rev l)).

(** [s.trim()] *)
Definition trim (l : list ascii) : list ascii :=
  dropWhileEnd is_white (dropWhile is_white l).

(** [s.replace(/^\/+|\/+$/g, '')]: the first alternative matches the leading
    run of slashes, the second the trailing run of what is left. *)
Definition stripSlashes (l : list ascii) : list ascii :=
  dropWhileEnd is_slash (dropWhile is_slash l).

Definition endsWith (l : list ascii) (c : ascii) : bool :=
  match last l with
  | Some x => (code x =? code c)%N
  | None => false
  end.

(** A string is truthy when it is defined and not empty. *)
Definition truthy (s : option string) : bool :=
  match s with
  | Some (String _ _) => true
  | _ => false
  end.

Definition normalizeDestinationPath (destinationPath : option string) : string :=
  match destinationPath with
  | Some (String c r) =>
      let normalized := stripSlashes (trim (chars (String c r))) in
      let normalized :=
        if negb (bool_decide (normalized = [])) && negb (endsWith normalized "/"%char)
        then normalized ++ ["/"%char] else normalized in
      str normalized
  | _ => ""%string
  end.

(** [parseInt(s)] with no radix: leading white space, an optional sign, an
    optional [0x] prefix, then the longest run of digits; [None] is [NaN]. *)
Definition digit_val (radix : Z) (c : ascii) : option Z :=
  let n := Z.of_N (code c) in
  let v :=
    if in_range 48 57 c then Some (n - 48)
    else if in_range 97 122 c then Some (n - 87)
    else if in_range 65 90 c then Some (n - 55)
    else None in
  match v with
  | Some d => if d <? radix then Some d else None
  | None => None
  end.

Fixpoint digits_value (radix : Z) (l : list ascii) (acc : option Z) : option Z :=
  match l with
  | [] => acc
  | c :: l' =>
      match digit_val radix c with
      | Some d => digits_value radix l' (Some (default 0 acc * radix + d))
      | None => acc
      end
  end.

Definition parseInt (s : string) : option Z :=
  let l := dropWhile is_white (chars s) in
  let '(neg, l) :=
    match l with
    | "-"%char :: l' => (true, l')
    | "+"%char :: l' => (false, l')
    | _ => (false, l)
    end in
  let '(radix, l) :=
    match l with
    | "0"%char :: "x"%char :: l' => (16, l')
    | "0"%char :: "X"%char :: l' => (16, l')
    | _ => (10, l)
    end in
  match digits_value radix l None with
  | Some v => Some (if neg : bool then - v else v)
  | None => None
  end.

(** ** Data model (upload-types.ts) *)

(** [Partial<UploadMetadata>]: every field may be undefined. *)
Record UploadMetadata : Type := mkUploadMetadata
  { filename : option string;
    filetype : option string;
    multipartId : option string;
    partIndex : option string;
    totalParts : option string;
    originalFileSize : option string;
    withFilename : option string;
    onDuplicate : option string;
    destinationPath : option string }.

(** The sidecar.  A number field read back from JSON is a number or [null]
    (what [JSON.stringify] writes for [NaN]): [None]. *)
Record UploadInfo : Type := mkUploadInfo
  { ui_id : string;
    ui_size : option Z;
    ui_offset : option Z;
    ui_metadata : UploadMetadata;
    ui_creation_date : string }.

(** [Map<number, string>]: a key is a number or [NaN] ([None]). *)
Record MultipartAssembly : Type := mkMultipartAssembly
  { parts : gmap (option Z) string;
    asm_totalParts : option Z;
    asm_metadata : UploadMetadata }.

Definition bytes : Type := list Byte.byte.

(** ** The environment and the server state *)

(** [JSON.stringify] and [JSON.parse] on sidecars: a library codec, known
    only by its round trip. *)
Class JsonCodec : Type := mkJsonCodec
  { stringify : UploadInfo -> bytes;
    parse : bytes -> option UploadInfo;
    parse_stringify : forall u, parse (stringify u) = Some u }.

Inductive Errno : Type :=
  | ENOENT        (* no such file *)
  | EACCES        (* the path refuses writes *)
  | EXDEV         (* rename across volumes *)
  | SyntaxError   (* JSON.parse *)
  | TypeError.    (* undefined where a string or number is required *)

Definition DuplicateHandler : Type :=
  string -> string -> gmap string bytes -> string.
Definition FilenameHandler : Type :=
  UploadMetadata -> string -> gmap string bytes -> string.

(** [TUS_SERVER_CONFIG], the handlers registered at startup, and what the
    volumes refuse: [denied p] makes every write, creation or move to [p] fail,
    [exdev from to] makes [rename] fail across the two volumes. *)
Record Env : Type := mkEnv
  { stagingDir : string;
    mountPath : string;
    registeredDuplicate : gmap string DuplicateHandler;
    registeredFilename : gmap string FilenameHandler;
    denied : string -> bool;
    exdev : string -> string -> bool }.

(** The staging and destination files (directories are implicit: [ensureDir]
    always succeeds) and the manager's [assemblies] map. *)
Record Server : Type := mkServer
  { fs : gmap string bytes;
    assemblies : gmap string MultipartAssembly }.

Inductive Result (A : Type) : Type :=
  | Ok (a : A)
  | Throw (e : Errno).
Arguments Ok {A} a.
Arguments Throw {A} e.

(** Computations that read and write the server and may throw; what was
    written before a throw stays written. *)
Definition M (A : Type) : Type := Server -> Result A * Server.

#[global] Instance M_ret : MRet M := fun A a s => (Ok a, s).
#[global] Instance M_bind : MBind M := fun A B f m s =>
  match m s with
  | (Ok a, s') => f a s'
  | (Throw e, s') => (Throw e, s')
  end.

Definition throw {A} (e : Errno) : M A := fun s => (Throw e, s).

(** [try { m } catch (e) { h e }] *)
Definition try_catch {A} (m : M A) (h : Errno -> M A) : M A := fun s =>
  match m s with
  | (Ok a, s') => (Ok a, s')
  | (Throw e, s') => h e s'
  end.

Definition get_fs : M (gmap string bytes) := fun s => (Ok (fs s), s).
Definition put_fs (f : gmap string bytes) : M unit := fun s =>
  (Ok tt, {| fs := f; assemblies := assemblies s |}).
Definition get_assemblies : M (gmap string MultipartAssembly) := fun s =>
  (Ok (assemblies s), s).
Definition put_assemblies (a : gmap string MultipartAssembly) : M unit := fun s =>
  (Ok tt, {| fs := fs s; assemblies := a |}).

(** An argument that must be defined: [path.join] and method calls throw a
    [TypeError] on [undefined]. *)
Definition defined {A} (o : option A) : M A :=
  match o with
  | Some a => mret a
  | None => throw TypeError
  end.

(** *** Node's [fs] and [path] *)

Section FileSystem.
Context (env : Env).

Definition existsSync (p : string) : M bool :=
  f ← get_fs; mret (bool_decide (is_Some (f !! p))).

Definition readFileSync (p : string) : M bytes :=
  f ← get_fs;
  match f !! p with
  | Some data => mret data
  | None => throw ENOENT
  end.

Definition writeFileSync (p : string) (data : bytes) : M unit :=
  if denied env p then throw EACCES
  else f ← get_fs; put_fs (<[p := data]> f).

(** Also [openSync(p, 'a')], [writeSync], [closeSync]: a descriptor opened for
    appending writes at the end of the file whatever position is passed. *)
Definition appendFileSync (p : string) (data : bytes) : M unit :=
  if denied env p then throw EACCES
  else f ← get_fs; put_fs (<[p := default [] (f !! p) ++ data]> f).

Definition unlinkSync (p : string) : M unit :=
  f ← get_fs;
  match f !! p with
  | Some _ => put_fs (delete p f)
  | None => throw ENOENT
  end.

Definition renameSync (from to : string) : M unit :=
  f ← get_fs;
  match f !! from with
  | None => throw ENOENT
  | Some data =>
      if denied env to then throw EACCES
      else if exdev env from to then throw EXDEV
      else put_fs (<[to := data]> (delete from f))
  end.

Definition copyFileSync (from to : string) : M unit :=
  f ← get_fs;
  match f !! from with
  | None => throw ENOENT
  | Some data =>
      if denied env to then throw EACCES
      else put_fs (<[to := data]> f)
  end.

(** [path.join] on two segments, for paths without [.] and [..] segments. *)
Definition path_join (a b : string) : string :=
  match a, b with
  | _, EmptyString => a
  | EmptyString, _ => b
  | _, _ => if endsWith (chars a) "/"%char then a +:+ b else a +:+ "/" +:+ b
  end.

End FileSystem.

(** ** File operations (tus-file-operations.ts) *)

(** [a || d] on an optional string: the empty string is falsy too. *)
Definition orElse (a : option string) (d : string) : string :=
  match a with
  | Some (String c r) => String c r
  | _ => d
  end.

(** [path.dirname], [path.extname] and [path.basename(p, ext)]. *)
Definition dirname (p : string) : string :=
  match dropWhileEnd is_slash (dropWhileEnd (fun c => negb (is_slash c)) (chars p)) with
  | [] => if bool_decide (dropWhile is_slash (chars p) = chars p) then "." else "/"
  | d => str d
  end%string.

Definition is_dot (c : ascii) : bool := (code c =? 46)%N.

Definition extname (p : string) : string :=
  let l := chars p in
  let ext := rev (dropWhile (fun c => negb (is_dot c)) (rev l)) in
  (* [ext] is [l] up to and including its last dot, or [[]] *)
  let n := length ext in
  if (n <=? 1)%nat then ""%string
  else if bool_decide (l = ["."%char; "."%char]) then ""%string
  else str (drop (n - 1) l).

Definition basename (p ext : string) : string :=
  let l := chars p in
  let e := chars ext in
  let k := (length l - length e)%nat in
  if negb (bool_decide (e = [])) && bool_decide (drop k l = e)
     && negb (bool_decide (l = e))
  then str (take k l) else p.

Section FileOperations.
Context (env : Env).

(** Directories are implicit in the store: creating one changes nothing. *)
Definition ensureDir (dir : string) : M unit := mret tt.

Definition getDestinationDir (destinationPath : option string) : string :=
  path_join (mountPath env) (normalizeDestinationPath destinationPath).

Definition getFullFilePath (filename : string) (destinationPath : option string)
    : string :=
  path_join (getDestinationDir destinationPath) filename.

(** The [while] loop of [getUniqueFilename]; [fuel] bounds the probes. *)
Fixpoint uniqueLoop (fuel : nat) (f : gmap string bytes) (dir base ext : string)
    (i : Z) (candidate : string) : string :=
  match fuel with
  | O => candidate
  | S fuel' =>
      if bool_decide (is_Some (f !! path_join dir candidate))
      then uniqueLoop fuel' f dir base ext (i + 1)
             (base +:+ "(" +:+ pretty i +:+ ")" +:+ ext)
      else candidate
  end.

(** The candidates are pairwise distinct, so one more probe than there are
    files is the most the loop can make. *)
Definition getUniqueFilename (filename dir : string) (f : gmap string bytes)
    : string :=
  let ext := extname filename in
  let base := basename filename ext in
  uniqueLoop (S (size f)) f dir base ext 1 filename.

Definition moveFileWithFallback (from to : string) : M bool :=
  try_catch (renameSync env from to;; mret true)
    (fun err =>
       match err with
       | EXDEV =>
           try_catch (copyFileSync env from to;; unlinkSync from;; mret true)
             (fun _ => mret false)
       | _ => mret false
       end).

Definition handleJsonFile (jsonPath destination : string) (keepJson : bool)
    : M bool :=
  try_catch
    (e ← existsSync jsonPath;
     if negb e then mret true
     else if keepJson then moveFileWithFallback jsonPath (destination +:+ ".json")
     else unlinkSync jsonPath;; mret true)
    (fun _ => mret false).

Definition moveFile (from to jsonPath : string) (keepJson : bool) : M bool :=
  ensureDir (dirname to);;
  moved ← moveFileWithFallback from to;
  if negb moved then mret false
  else handleJsonFile jsonPath to keepJson.

Definition checkDuplicateFile (name : string) (destinationPath : option string)
    : M bool :=
  existsSync (getFullFilePath name destinationPath).

(** ** Strategy tables (tus-filename-utils.ts) *)

(** The table as it is after the startup registrations: a registered
    handler overrides the built-in one of the same name. *)
Definition duplicateStrategies (name : string) : option DuplicateHandler :=
  match registeredDuplicate env !! name with
  | Some h => Some h
  | None =>
      if bool_decide (name = "prevent"%string)
      then Some (fun name _ _ => name)
      else if bool_decide (name = "number"%string)
      then Some getUniqueFilename
      else None
  end.

Definition originalStrategy : FilenameHandler := fun meta uploadId f =>
  if negb (truthy (filename meta)) then uploadId
  else
    let sanitized := sanitizeFilename (default ""%string (filename meta)) in
    let duplicateStrategy := orElse (onDuplicate meta) "prevent" in
    let handler :=
      match duplicateStrategies duplicateStrategy with
      | Some h => h
      | None => default (fun name _ _ => name) (duplicateStrategies "prevent")
      end in
    handler sanitized (getDestinationDir (destinationPath meta)) f.

Definition filenameStrategies (name : string) : option FilenameHandler :=
  match registeredFilename env !! name with
  | Some h => Some h
  | None =>
      if bool_decide (name = "default"%string)
      then Some (fun _ uploadId _ => uploadId)
      else if bool_decide (name = "original"%string)
      then Some originalStrategy
      else None
  end.

Definition getFinalFilename (meta : UploadMetadata) (uploadId : string)
    : M string :=
  let strategy := orElse (withFilename meta) "default" in
  let handler :=
    match filenameStrategies strategy with
    | Some h => h
    | None => default (fun _ uploadId _ => uploadId) (filenameStrategies "default")
    end in
  f ← get_fs; mret (handler meta uploadId f).

Definition usesOriginalFilename (meta : UploadMetadata) : bool :=
  bool_decide (orElse (withFilename meta) "default" = "original"%string)
  && truthy (filename meta).

End FileOperations.

(** ** The multipart assembler (tus-multipart-manager.ts) *)

Section Manager.
Context (env : Env) {codec : JsonCodec}.

(** [path.join(TUS_SERVER_CONFIG.stagingDir, name)] *)
Definition staged (name : string) : string := path_join (stagingDir env) name.

Definition isMultipartUpload (meta : UploadMetadata) : bool :=
  truthy (multipartId meta) && truthy (partIndex meta) && truthy (totalParts meta).

Definition appendPartToFile (baseFilePath partPath : string) : M unit :=
  partData ← readFileSync partPath;
  appendFileSync env baseFilePath partData.

Definition cleanupPartFiles (partId : string) : M unit :=
  let partPath := staged partId in
  let jsonPath := staged (partId +:+ ".json") in
  try_catch
    (e ← existsSync partPath;
     (if e : bool then unlinkSync partPath else mret tt);;
     e' ← existsSync jsonPath;
     if e' : bool then unlinkSync jsonPath else mret tt)
    (fun _ => mret tt).

(** The metadata object that [updateAssembledMetadata] and [assembleFile]
    build from the group's metadata. *)
Definition assembledMetadata (meta : UploadMetadata) : UploadMetadata :=
  {| filename := Some (orElse (filename meta) "");
     filetype := Some (orElse (filetype meta) "");
     multipartId := None; partIndex := None; totalParts := None;
     originalFileSize := None;
     withFilename := Some (orElse (withFilename meta) "default");
     onDuplicate := Some (orElse (onDuplicate meta) "prevent");
     destinationPath := destinationPath meta |}.

Definition updateAssembledMetadata (fileId : string) (meta : UploadMetadata)
    : M unit :=
  let jsonPath := staged (fileId +:+ ".json") in
  try_catch
    (raw ← readFileSync jsonPath;
     originalJson ← match parse raw with
                    | Some u => mret u
                    | None => throw SyntaxError
                    end;
     let updatedMetadata :=
       {| ui_id := fileId;
          ui_metadata := assembledMetadata meta;
          ui_size := parseInt (orElse (originalFileSize meta) "0");
          ui_offset := parseInt (orElse (originalFileSize meta) "0");
          ui_creation_date := ui_creation_date originalJson |} in
     writeFileSync env jsonPath (stringify updatedMetadata))
    (fun _ => mret tt).

Definition processAssembledFile (uploadId : string) (meta : UploadMetadata)
    : M unit :=
  finalFilename ← getFinalFilename env meta uploadId;
  let stagingPath := staged uploadId in
  let destination := getFullFilePath env finalFilename (destinationPath meta) in
  let jsonPath := staged (uploadId +:+ ".json") in
  moveFile env stagingPath destination jsonPath (negb (usesOriginalFilename meta));;
  mret tt.

(** The indices [i = 2; i <= totalParts; i++]; none when [totalParts] is
    [NaN]. *)
Definition partIndices (total : option Z) : list Z :=
  match total with
  | Some n => seqZ 2 (n - 1)
  | None => []
  end.

(** The body of the [for] loop of [assembleFile], over the indices left. *)
Fixpoint appendParts (assembly : MultipartAssembly) (baseFilePath : string)
    (indices : list Z) : M unit :=
  match indices with
  | [] => mret tt
  | i :: rest =>
      partId ← defined (parts assembly !! Some i);
      appendPartToFile baseFilePath (staged partId);;
      cleanupPartFiles partId;;
      appendParts assembly baseFilePath rest
  end.

Definition assembleFile (multipartId : string) (assembly : MultipartAssembly)
    : M unit :=
  let meta := asm_metadata assembly in
  try_catch
    (firstPartId ← defined (parts assembly !! Some 1);
     let baseFilePath := staged firstPartId in
     appendParts assembly baseFilePath (partIndices (asm_totalParts assembly));;
     updateAssembledMetadata firstPartId meta;;
     processAssembledFile firstPartId (assembledMetadata meta))
    (fun error => throw error).

(** [assembly.parts.size === assembly.totalParts] *)
Definition allPartsReceived (assembly : MultipartAssembly) : bool :=
  match asm_totalParts assembly with
  | Some n => bool_decide (Z.of_nat (size (parts assembly)) = n)
  | None => false
  end.

(** The caller has checked that the three multipart fields are truthy, which
    is what the non-null assertions of the source rely on. *)
Definition handlePartCompletion (uploadId : string) (meta : UploadMetadata)
    : M bool :=
  let multipartId := default "" (multipartId meta) in
  let partIndex := parseInt (default "" (partIndex meta)) in
  let totalParts := parseInt (default "" (totalParts meta)) in
  asms ← get_assemblies;
  (if negb (bool_decide (is_Some (asms !! multipartId)))
   then put_assemblies
          (<[multipartId := {| parts := ∅; asm_totalParts := totalParts;
                               asm_metadata := meta |}]> asms)
   else mret tt);;
  asms ← get_assemblies;
  assembly ← defined (asms !! multipartId);
  let assembly :=
    {| parts := <[partIndex := uploadId]> (parts assembly);
       asm_totalParts := asm_totalParts assembly;
       asm_metadata := asm_metadata assembly |} in
  put_assemblies (<[multipartId := assembly]> asms);;
  if allPartsReceived assembly then
    try_catch
      (assembleFile multipartId assembly;;
       asms ← get_assemblies;
       put_assemblies (delete multipartId asms);;
       mret true)
      (fun error =>
         asms ← get_assemblies;
         put_assemblies (delete multipartId asms);;
         throw error)
  else mret false.

End Manager.

(** ** The TUS endpoint (route.ts) *)

(** What a handler reads of a request.  [req_metadata] is the
    [Upload-Metadata] header after [parseMetadata]; [param_id] is the first
    path segment after [/api/upload/]. *)
Record Request : Type := mkRequest
  { param_id : option string;
    upload_length : option string;
    upload_offset : option string;
    content_type : option string;
    req_metadata : UploadMetadata;
    req_body : bytes;
    forwarded_proto : option string;
    forwarded_host : option string;
    host : option string }.

Inductive Body : Type :=
  | NoBody
  | ErrorText (e : string)         (* { error: e } *)
  | ErrorMessage (m : string).     (* { error: { message: m } } *)

Record Response : Type := mkResponse
  { status : Z;
    headers : list (string * string);
    body : Body }.

Definition dquote : string := String (ascii_of_nat 34) EmptyString.

Definition duplicateMessage (name : string) : string :=
  "File " +:+ dquote +:+ name +:+ dquote
  +:+ " already exists and duplicates are not allowed".

(** [a !== b] on two numbers of which either may be [NaN] or [null]. *)
Definition strictNe (a b : option Z) : bool :=
  match a, b with
  | Some x, Some y => negb (x =? y)
  | _, _ => true
  end.

(** [offset >= size], where a [null] size compares as 0. *)
Definition reached (offset : Z) (size : option Z) : bool :=
  default 0 size <=? offset.

Section Route.
Context (env : Env) {codec : JsonCodec}.

Definition internalError : Response :=
  {| status := 500; headers := []; body := ErrorText "Internal server error" |}.

(** [uuid] and [now] are what [uuidv4()] and [new Date().toISOString()]
    return during the call. *)
Definition POST (req : Request) (uuid now : string) : M Response :=
  try_catch
    (if negb (truthy (upload_length req)) then
       mret {| status := 400; headers := [];
               body := ErrorText "Missing Upload-Length header" |}
     else
       let meta := req_metadata req in
       duplicate ←
         (if bool_decide (withFilename meta = Some "original"%string)
             && truthy (filename meta)
             && bool_decide (onDuplicate meta = Some "prevent"%string)
          then checkDuplicateFile env
                 (sanitizeFilename (default "" (filename meta)))
                 (destinationPath meta)
          else mret false);
       if duplicate : bool then
         mret {| status := 409; headers := [];
                 body := ErrorMessage
                           (duplicateMessage (default "" (filename meta))) |}
       else
         let filePath := staged env uuid in
         let metadataPath := staged env (uuid +:+ ".json") in
         writeFileSync env filePath [];;
         let uploadInfo :=
           {| ui_id := uuid;
              ui_size := parseInt (default "" (upload_length req));
              ui_offset := Some 0;
              ui_metadata := meta;
              ui_creation_date := now |} in
         writeFileSync env metadataPath (stringify uploadInfo);;
         let protocol := orElse (forwarded_proto req) "http" in
         let host := orElse (forwarded_host req) (orElse (host req) "localhost:3000") in
         mret {| status := 201;
                 headers := [("Location", protocol +:+ "://" +:+ host
                                            +:+ "/api/upload/" +:+ uuid);
                             ("Tus-Resumable", "1.0.0");
                             ("Upload-Offset", "0")]%string;
                 body := NoBody |})
    (fun _ => mret internalError).

Definition handleUploadComplete (uploadId : string) (uploadInfo : UploadInfo)
    : M bool :=
  let meta := ui_metadata uploadInfo in
  let isMultipart :=
    truthy (multipartId meta) && truthy (partIndex meta) && truthy (totalParts meta) in
  if isMultipart && negb (bool_decide (totalParts meta = Some "1"%string)) then
    handlePartCompletion env uploadId meta
  else
    finalFilename ← getFinalFilename env meta uploadId;
    let stagingPath := staged env uploadId in
    let destination := getFullFilePath env finalFilename (destinationPath meta) in
    let jsonPath := staged env (uploadId +:+ ".json") in
    moveFile env stagingPath destination jsonPath (negb (usesOriginalFilename meta));;
    mret true.

Definition PATCH (req : Request) : M Response :=
  try_catch
    (if negb (truthy (param_id req)) then
       mret {| status := 400; headers := []; body := ErrorText "Missing upload ID" |}
     else if negb (truthy (upload_offset req)) then
       mret {| status := 400; headers := [];
               body := ErrorText "Missing Upload-Offset header" |}
     else if negb (bool_decide
                     (content_type req = Some "application/offset+octet-stream"%string)) then
       mret {| status := 400; headers := []; body := ErrorText "Invalid Content-Type" |}
     else
       let uploadId := default "" (param_id req) in
       let filePath := staged env uploadId in
       let metadataPath := staged env (uploadId +:+ ".json") in
       known ← existsSync metadataPath;
       if negb known then
         mret {| status := 404; headers := []; body := ErrorText "Upload not found" |}
       else
         raw ← readFileSync metadataPath;
         uploadInfo ← match parse raw with
                      | Some u => mret u
                      | None => throw SyntaxError
                      end;
         let offset := parseInt (default "" (upload_offset req)) in
         if strictNe offset (ui_offset uploadInfo) then
           mret {| status := 409; headers := []; body := ErrorText "Offset mismatch" |}
         else
           let buffer := req_body req in
           appendFileSync env filePath buffer;;
           let newOffset := default 0 (ui_offset uploadInfo) + Z.of_nat (length buffer) in
           let uploadInfo :=
             {| ui_id := ui_id uploadInfo;
                ui_size := ui_size uploadInfo;
                ui_offset := Some newOffset;
                ui_metadata := ui_metadata uploadInfo;
                ui_creation_date := ui_creation_date uploadInfo |} in
           writeFileSync env metadataPath (stringify uploadInfo);;
           let isPartComplete := reached newOffset (ui_size uploadInfo) in
           if isPartComplete then
             isFileComplete ← handleUploadComplete uploadId uploadInfo;
             mret {| status := 204;
                     headers := [("Tus-Resumable", "1.0.0");
                                 ("Upload-Offset", pretty newOffset)]%string
                                ++ (if isFileComplete : bool
                                    then [("Upload-Complete", "true")]%string
                                    else []);
                     body := NoBody |}
           else
             mret {| status := 204;
                     headers := [("Tus-Resumable", "1.0.0");
                                 ("Upload-Offset", pretty newOffset)]%string;
                     body := NoBody |})
    (fun _ => mret internalError).

Definition HEAD (req : Request) : M Response :=
  try_catch
    (if negb (truthy (param_id req)) then
       mret {| status := 400; headers := []; body := NoBody |}
     else
       let uploadId := default "" (param_id req) in
       let metadataPath := staged env (uploadId +:+ ".json") in
       known ← existsSync metadataPath;
       if negb known then mret {| status := 404; headers := []; body := NoBody |}
       else
         raw ← readFileSync metadataPath;
         uploadInfo ← match parse raw with
                      | Some u => mret u
                      | None => throw SyntaxError
                      end;
         offset ← defined (ui_offset uploadInfo);
         size ← defined (ui_size uploadInfo);
         mret {| status := 200;
                 headers := [("Tus-Resumable", "1.0.0");
                             ("Upload-Offset", pretty offset);
                             ("Upload-Length", pretty size);
                             ("Cache-Control", "no-store")]%string;
                 body := NoBody |})
    (fun _ => mret {| status := 500; headers := []; body := NoBody |}).

End Route.

(** ** The client's split into parts (useTusFileUpload.ts) *)

(** [Blob.slice(start, end)] on the bytes of a file. *)
Definition slice (file : bytes) (start end_ : Z) : bytes :=
  let size := Z.of_nat (length file) in
  let relativeStart := if start <? 0 then Z.max (size + start) 0 else Z.min start size in
  let relativeEnd := if end_ <? 0 then Z.max (size + end_) 0 else Z.min end_ size in
  let span := Z.max (relativeEnd - relativeStart) 0 in
  take (Z.to_nat span) (drop (Z.to_nat relativeStart) file).

(** What the client reads of a [File], and the three metadata defaults of
    [TUS_CLIENT_CONFIG]. *)
Record ClientFile : Type := mkClientFile
  { cf_name : string; cf_type : string; cf_bytes : bytes }.

Record ClientConfig : Type := mkClientConfig
  { cfg_withFilename : string; cfg_onDuplicate : string;
    cfg_destinationPath : string }.

(** One TUS session of a multipart upload: the blob and its metadata. *)
Record PartUpload : Type := mkPartUpload
  { pu_blob : bytes; pu_metadata : UploadMetadata }.

Definition uploadPart (cfg : ClientConfig) (file : ClientFile)
    (partIndex partSize : Z) (multipartId : string) (totalParts : Z) : PartUpload :=
  let size := Z.of_nat (length (cf_bytes file)) in
  let start := partIndex * partSize in
  let end_ := Z.min (start + partSize) size in
  let partNumber := partIndex + 1 in
  {| pu_blob := slice (cf_bytes file) start end_;
     pu_metadata :=
       {| filename := Some (cf_name file);
          filetype := Some (cf_type file);
          multipartId := Some multipartId;
          partIndex := Some (pretty partNumber);
          totalParts := Some (pretty totalParts);
          originalFileSize := Some (pretty size);
          withFilename := Some (cfg_withFilename cfg);
          onDuplicate := Some (cfg_onDuplicate cfg);
          destinationPath := Some (cfg_destinationPath cfg) |} |}.

(** The sessions [uploadFileMultipart] starts; [multipartId] is what
    [generateId()] returned.  [Math.ceil(size / totalParts)] is the integer
    ceiling: at file sizes the quotient is far from the next double. *)
Definition uploadFileMultipart (cfg : ClientConfig) (file : ClientFile)
    (multipartId : string) : list PartUpload :=
  let size := Z.of_nat (length (cf_bytes file)) in
  let totalParts := getPartCount size in
  let partSize := ceil_div size totalParts in
  map (fun i => uploadPart cfg file i partSize multipartId totalParts)
      (seqZ 0 totalParts).


(** The one session of [uploadFileComplete]: the whole file, without the
    multipart fields. *)
Definition uploadFileComplete (cfg : ClientConfig) (file : ClientFile) : PartUpload :=
  {| pu_blob := cf_bytes file;
     pu_metadata :=
       {| filename := Some (cf_name file);
          filetype := Some (cf_type file);
          multipartId := None; partIndex := None; totalParts := None;
          originalFileSize := None;
          withFilename := Some (cfg_withFilename cfg);
          onDuplicate := Some (cfg_onDuplicate cfg);
          destinationPath := Some (cfg_destinationPath cfg) |} |}.

(** The sessions the driver starts for one file of the batch: it uploads the
    file whole when [parts === 1] and in parts otherwise. *)
Definition uploadSessions (cfg : ClientConfig) (file : ClientFile)
    (multipartId : string) : list PartUpload :=
  if getPartCount (Z.of_nat (length (cf_bytes file))) =? 1
  then [uploadFileComplete cfg file]
  else uploadFileMultipart cfg file multipartId.
(** ** The [Upload-Metadata] header (tus-file-operations.ts) *)

(** [s.split(sep)] for a separator of one code unit: the pieces between the
    separators, one piece more than there are separators. *)
Fixpoint split (sep : ascii) (l : list ascii) : list (list ascii) :=
  match l with
  | [] => [[]]
  | c :: rest =>
      if Ascii.eqb c sep then [] :: split sep rest
      else match split sep rest with
           | item :: items => (c :: item) :: items
           | [] => [[c]]
           end
  end.

(** A piece taken by destructuring is truthy when it is there and not empty. *)
Definition present (piece : option (list ascii)) : bool :=
  match piece with
  | Some (_ :: _) => true
  | _ => false
  end.

(** [Object.fromEntries]: a later entry replaces an earlier one of its key. *)
Definition fromEntries (entries : list (string * string)) : gmap string string :=
  foldl (fun m kv => <[ kv.1 := kv.2 ]> m) ∅ entries.

Section ParseMetadata.
(** [Buffer.from(value, "base64").toString("utf8")] *)
Context (base64 : string -> string).

Definition parseMetadata (header : option string) : gmap string string :=
  if negb (truthy header) then ∅
  else
    let items := split ","%char (chars (default EmptyString header)) in
    let pieces := map (split " "%char) items in
    let kept := List.filter (fun p => present (p !! 0%nat) && present (p !! 1%nat)) pieces in
    fromEntries
      (map (fun p => (str (default [] (p !! 0%nat)),
                      base64 (str (default [] (p !! 1%nat))))) kept).
End ParseMetadata.

(** ** Registering strategies (tus-filename-utils.ts) *)


(** [filenameStrategies[name] = handler] *)
Definition registerFilenameStrategy (name : string) (handler : FilenameHandler)
    (env : Env) : Env :=
  {| stagingDir := stagingDir env;
     mountPath := mountPath env;
     registeredDuplicate := registeredDuplicate env;
     registeredFilename := <[ name := handler ]> (registeredFilename env);
     denied := denied env;
     exdev := exdev env |}.

(** ** Completion tracking of a multipart upload (useTusFileUpload.ts) *)

(** How the promise of one part ends. *)
Inductive Settlement : Type :=
  | fulfilled
  | rejected (reason : string).

(** The promise [uploadFileMultipart] returns: settling a settled promise
    does nothing. *)
Inductive PromiseState : Type :=
  | unsettled
  | resolved
  | rejectedWith (reason : string).

Definition settle (p outcome : PromiseState) : PromiseState :=
  match p with
  | unsettled => outcome
  | _ => p
  end.

(** The two counters of the closure, the promise, and whether
    [updateFileStatus(id, { status: 'completed', progress: 100 })] was
    called. *)
Record Tracker : Type := mkTracker
  { completedParts : Z;
    hasError : bool;
    promise : PromiseState;
    markedCompleted : bool }.

Definition newTracker : Tracker :=
  {| completedParts := 0; hasError := false; promise := unsettled;
     markedCompleted := false |}.

(** The [then] and the [catch] handler attached to each part. *)
Definition onPartSettled (totalParts : Z) (t : Tracker) (e : Settlement) : Tracker :=
  match e with
  | fulfilled =>
      if hasError t then t
      else
        let completed := completedParts t + 1 in
        if completed =? totalParts
        then {| completedParts := completed; hasError := hasError t;
                promise := settle (promise t) resolved;
                markedCompleted := true |}
        else {| completedParts := completed; hasError := hasError t;
                promise := promise t;
                markedCompleted := markedCompleted t |}
  | rejected reason =>
      if negb (hasError t)
      then {| completedParts := completedParts t; hasError := true;
              promise := settle (promise t) (rejectedWith reason);
              markedCompleted := markedCompleted t |}
      else t
  end.

(** The handlers run in the order in which the parts settle. *)
Definition trackParts (totalParts : Z) (events : list Settlement) : Tracker :=
  foldl (onPartSettled totalParts) newTracker events.

(** ** The queue of the hook (useTusFileUpload.ts) *)

(** [QueuedFile] with all its fields.  [qe_progress] holds the whole numbers
    the handlers below store. *)
Record QueueEntry : Type := mkQueueEntry
  { qe_id : string;
    qe_file : ClientFile;
    qe_status : Status;
    qe_progress : Z;
    qe_error : option string;
    qe_name : string;
    qe_size : Z;
    qe_type : string;
    qe_uploadedBytes : option Z }.

(** The state of the hook: the three [useState] cells and the keys of
    [activeUploadsRef]; [abortedUploads] collects the keys of the uploads on
    which [abort()] has been called. *)
Record Hook : Type := mkHook
  { fileQueue : list QueueEntry;
    hook_uploading : bool;
    message : string;
    activeUploads : gset string;
    abortedUploads : gset string }.

Section Selection.
(** [TUS_CLIENT_CONFIG.maxFileSelection], and what the successive calls of
    [generateId()] return. *)
Context (maxFileSelection : Z) (generateId : nat -> string).

Definition handleFileSelection (files : option (list ClientFile)) (h : Hook) : Hook :=
  match files with
  | None => h
  | Some fileArray =>
      let currentFileCount := Z.of_nat (length (fileQueue h)) in
      let totalFiles := currentFileCount + Z.of_nat (length fileArray) in
      let remainingSlots := maxFileSelection - currentFileCount in
      if (totalFiles >? maxFileSelection) && (remainingSlots <=? 0) then
        {| fileQueue := fileQueue h;
           hook_uploading := hook_uploading h;
           message := "Maximum " +:+ pretty maxFileSelection
                      +:+ " files allowed. Remove some files first.";
           activeUploads := activeUploads h;
           abortedUploads := abortedUploads h |}
      else
        let '(text, fileArray) :=
          if totalFiles >? maxFileSelection
          then ("Only " +:+ pretty remainingSlots +:+ " more files can be added ("
                +:+ pretty maxFileSelection +:+ " max).",
                take (Z.to_nat remainingSlots) fileArray)
          else (EmptyString, fileArray) in
        let queuedFiles :=
          imap (fun i file =>
                  {| qe_id := generateId i;
                     qe_file := file;
                     qe_status := pending;
                     qe_progress := 0;
                     qe_error := None;
                     qe_name := cf_name file;
                     qe_size := Z.of_nat (length (cf_bytes file));
                     qe_type := cf_type file;
                     qe_uploadedBytes := Some 0 |}) fileArray in
        {| fileQueue := fileQueue h ++ queuedFiles;
           hook_uploading := hook_uploading h;
           message := text;
           activeUploads := activeUploads h;
           abortedUploads := abortedUploads h |}
  end.
End Selection.

(** [key.startsWith(fileId)] *)
Definition startsWith (key fileId : string) : bool := String.prefix fileId key.

Definition removeFile (fileId : string) (h : Hook) : Hook :=
  {| fileQueue := List.filter (fun f => negb (String.eqb (qe_id f) fileId)) (fileQueue h);
     hook_uploading := hook_uploading h;
     message := message h;
     activeUploads := filter (fun key => startsWith key fileId = false) (activeUploads h);
     abortedUploads :=
       abortedUploads h ∪ filter (fun key => startsWith key fileId = true) (activeUploads h) |}.

Definition clearQueue (h : Hook) : Hook :=
  {| fileQueue := [];
     hook_uploading := hook_uploading h;
     message := EmptyString;
     activeUploads := ∅;
     abortedUploads := abortedUploads h ∪ activeUploads h |}.

Definition clearCompleted (h : Hook) : Hook :=
  {| fileQueue :=
       List.filter (fun f => match qe_status f with
                             | completed | error => false
                             | _ => true
                             end) (fileQueue h);
     hook_uploading := hook_uploading h;
     message := message h;
     activeUploads := activeUploads h;
     abortedUploads := abortedUploads h |}.

Definition clearPending (h : Hook) : Hook :=
  {| fileQueue :=
       List.filter (fun f => match qe_status f with
                             | pending => false
                             | _ => true
                             end) (fileQueue h);
     hook_uploading := hook_uploading h;
     message := message h;
     activeUploads := activeUploads h;
     abortedUploads := abortedUploads h |}.

(** The keys under which the uploads of a file are stored: the id itself for
    a complete upload, [id-i] for part [i]. *)
Definition completeKey (fileId : string) : string := fileId.
Definition partKeyOf (fileId : string) (partIndex : Z) : string :=
  fileId +:+ "-" +:+ pretty partIndex.

(** What the driver reads of an entry. *)
Definition queued (f : QueueEntry) : QueuedFile :=
  {| qf_id := qe_id f; qf_name := qe_name f; qf_size := qe_size f;
     qf_status := qe_status f |}.

(** ** Vocabulary of the statements *)

(** Unfolds the monad of the server down to functions on the state. *)
Ltac munfold :=
  unfold mbind, M_bind, mret, M_ret, try_catch, throw, defined,
    get_fs, put_fs, get_assemblies, put_assemblies in *.

(** Resolves lookups in a store after insertions and deletions at paths known
    to be equal or distinct. *)
Ltac map_look :=
  repeat first
    [ rewrite lookup_insert_eq
    | rewrite lookup_delete_eq
    | rewrite lookup_insert_ne by congruence
    | rewrite lookup_delete_ne by congruence ].



(** The summed part count of a batch, [Σ parts(B)]. *)
Definition sumParts (batch : list FileWithParts) : Z :=
  foldr (fun file sum => fw_parts file + sum) 0 batch.

(** The [for] loop inside [backtrack], named. *)
Fixpoint backtrackLoop (maxStreams : Z) (currentBatch : list FileWithParts)
    (currentTotal : Z) (l : list FileWithParts) (b : Best) : Best :=
  match l with
  | [] => b
  | file :: l' =>
      let newTotal := currentTotal + fw_parts file in
      backtrackLoop maxStreams currentBatch currentTotal l'
        (if newTotal <=? maxStreams
         then backtrack maxStreams (currentBatch ++ [file]) l' newTotal b
         else b)
  end.

(** What one call of [backtrack] does to the running best: it never lowers
    it, it ends at least as high as every feasible extension of the current
    batch by files of [rest], and it is either untouched or such an
    extension. *)
Definition searched (maxStreams : Z) (cur rest : list FileWithParts)
    (total : Z) (best r : Best) : Prop :=
  snd best <= snd r /\
  (forall S, sublist S rest -> total + sumParts S <= maxStreams ->
             total + sumParts S <= snd r) /\
  (r = best \/
   exists S, sublist S rest /\ r = (cur ++ S, total + sumParts S) /\
             total + sumParts S <= maxStreams).

Definition loopSearched (maxStreams : Z) (cur rest : list FileWithParts)
    (total : Z) (best r : Best) : Prop :=
  snd best <= snd r /\
  (forall S, sublist S rest -> total + sumParts S <= maxStreams ->
             total <= snd best -> total + sumParts S <= snd r) /\
  (r = best \/
   exists S, sublist S rest /\ r = (cur ++ S, total + sumParts S) /\
             total + sumParts S <= maxStreams).


(** [normalizeDestinationPath] on the code units of a non-empty path. *)
Definition normalizeChars (l : list ascii) : list ascii :=
  let normalized := stripSlashes (trim l) in
  if negb (bool_decide (normalized = [])) && negb (endsWith normalized "/"%char)
  then normalized ++ ["/"%char] else normalized.

(** An upload is a multipart part when the three multipart fields are
    present and [totalParts] is not ["1"]; otherwise it is a solo upload. *)
Definition isMultipartPart (meta : UploadMetadata) : bool :=
  isMultipartUpload meta && negb (bool_decide (totalParts meta = Some "1"%string)).

(** The sidecar after an accepted append of [n] bytes. *)
Definition advanced (info : UploadInfo) (n : Z) : UploadInfo :=
  {| ui_id := ui_id info;
     ui_size := ui_size info;
     ui_offset := Some (default 0 (ui_offset info) + n);
     ui_metadata := ui_metadata info;
     ui_creation_date := ui_creation_date info |}.

(** The 204 response of PATCH. *)
Definition accepted (newOffset : Z) (complete : bool) : Response :=
  {| status := 204;
     headers := [("Tus-Resumable", "1.0.0"); ("Upload-Offset", pretty newOffset)]%string
                ++ (if complete then [("Upload-Complete", "true")]%string else []);
     body := NoBody |}.

(** A PATCH request that passes the header checks of the handler. *)
Definition wellFormedPatch (req : Request) : Prop :=
  truthy (param_id req) = true /\
  truthy (upload_offset req) = true /\
  content_type req = Some "application/offset+octet-stream"%string.

Definition hasHeader (name value : string) (r : Response) : Prop :=
  In (name, value) (headers r).

Section StoreVocabulary.
Context (env : Env) {codec : JsonCodec}.

(** The sidecar of [uploadId] in the staging directory, when it is there and
    parses. *)
Definition sidecar (s : Server) (uploadId : string) : option UploadInfo :=
  fs s !! staged env (uploadId +:+ ".json") ≫= parse.

(** The payload file of [uploadId] in the staging directory. *)
Definition payload (s : Server) (uploadId : string) : option bytes :=
  fs s !! staged env uploadId.

(** The store after PATCH has appended [buffer] and rewritten the sidecar. *)
Definition appended (s : Server) (uploadId : string) (info : UploadInfo)
    (buffer : bytes) : Server :=
  {| fs := <[staged env (uploadId +:+ ".json") :=
               stringify (advanced info (Z.of_nat (length buffer)))]>
             (<[staged env uploadId :=
                  default [] (fs s !! staged env uploadId) ++ buffer]> (fs s));
     assemblies := assemblies s |}.

End StoreVocabulary.

Section CreateVocabulary.
Context (env : Env).



End CreateVocabulary.

(** *** The assembly map around a part completion *)

(** The group's entry once [handlePartCompletion] has recorded the part. *)
Definition recordedAssembly (s : Server) (uploadId : string) (meta : UploadMetadata)
    : MultipartAssembly :=
  let known :=
    default {| parts := ∅;
               asm_totalParts := parseInt (default EmptyString (totalParts meta));
               asm_metadata := meta |}
            (assemblies s !! default EmptyString (multipartId meta)) in
  {| parts := <[parseInt (default EmptyString (partIndex meta)) := uploadId]> (parts known);
     asm_totalParts := asm_totalParts known;
     asm_metadata := asm_metadata known |}.

Definition recorded (s : Server) (uploadId : string) (meta : UploadMetadata) : Server :=
  {| fs := fs s;
     assemblies := <[default EmptyString (multipartId meta) :=
                       recordedAssembly s uploadId meta]> (assemblies s) |}.

(** The server once the entry of a group has been removed. *)
Definition forgotten (s : Server) (multipartId : string) : Server :=
  {| fs := fs s; assemblies := delete multipartId (assemblies s) |}.

Section OffsetVocabulary.
Context (env : Env) {codec : JsonCodec}.

Definition payloadLength (s : Server) (uploadId : string) : Z :=
  Z.of_nat (length (default [] (payload env s uploadId))).

(** One accepted PATCH on [uploadId] that does not yet reach the size. *)
Inductive appendingPatch (uploadId : string) (s s' : Server) : Prop :=
  | appendingPatch_intro (req : Request) (info : UploadInfo) (o : Z) :
      wellFormedPatch req ->
      default EmptyString (param_id req) = uploadId ->
      sidecar env s uploadId = Some info ->
      ui_offset info = Some o ->
      parseInt (default EmptyString (upload_offset req)) = Some o ->
      denied env (staged env uploadId) = false ->
      denied env (staged env (uploadId +:+ ".json")) = false ->
      reached (o + Z.of_nat (length (req_body req))) (ui_size info) = false ->
      s' = snd (PATCH env req s) ->
      appendingPatch uploadId s s'.

End OffsetVocabulary.

Section AssemblyVocabulary.
Context (env : Env).


(** The staging paths of a list of uploads: payloads, then sidecars. *)
Definition stagingPaths (ids : list string) : list string :=
  map (staged env) ids ++ map (fun partId => staged env (partId +:+ ".json")) ids.

End AssemblyVocabulary.

Section Separation.
Context (env : Env).



End Separation.

(** The sidecar [updateAssembledMetadata] writes over the sidecar [original]
    of part 1. *)
Definition assembledInfo (fileId : string) (meta : UploadMetadata)
    (original : UploadInfo) : UploadInfo :=
  {| ui_id := fileId;
     ui_metadata := assembledMetadata meta;
     ui_size := parseInt (orElse (originalFileSize meta) "0");
     ui_offset := parseInt (orElse (originalFileSize meta) "0");
     ui_creation_date := ui_creation_date original |}.

Section ReassemblyVocabulary.
Context (env : Env) {codec : JsonCodec}.

(** The name [getFinalFilename] computes on the store [f]. *)
Definition finalName (meta : UploadMetadata) (uploadId : string)
    (f : gmap string bytes) : string :=
  let handler :=
    match filenameStrategies env (orElse (withFilename meta) "default") with
    | Some h => h
    | None => default (fun _ uploadId _ => uploadId) (filenameStrategies env "default")
    end in
  handler meta uploadId f.



End ReassemblyVocabulary.

(** The empty metadata object. *)
Definition noMetadata : UploadMetadata :=
  mkUploadMetadata None None None None None None None None None.

(** *** Completions of the parts of one group, in the order they happen *)

(** A completion: the staging id of the part and its metadata. *)
Definition Completion : Type := (string * UploadMetadata)%type.

Definition partKey (c : Completion) : option Z :=
  parseInt (default EmptyString (partIndex (snd c))).

(** The [parts] map after the completions [l], starting from [m]. *)
Definition recordParts (m : gmap (option Z) string) (l : list Completion)
    : gmap (option Z) string :=
  foldl (fun m c => <[partKey c := fst c]> m) m l.

(** The entry of the group after the completions [l] on a manager that did
    not know the group: the first completion fixes [totalParts] and the
    metadata. *)
Definition groupAssembly (l : list Completion) : MultipartAssembly :=
  {| parts := recordParts ∅ l;
     asm_totalParts :=
       parseInt (default EmptyString
                   (totalParts (default noMetadata (snd <$> head l))));
     asm_metadata := default noMetadata (snd <$> head l) |}.

Section CompletionRun.
Context (env : Env) {codec : JsonCodec}.


End CompletionRun.

(** A completion of a part of the group [group] of [n] parts. *)
Definition inGroup (group : string) (n : Z) (c : Completion) : Prop :=
  multipartId (snd c) = Some group /\
  parseInt (default EmptyString (totalParts (snd c))) = Some n.


Section Placement.
Context (env : Env).


End Placement.

Section FailureVocabulary.
Context (env : Env).

(** [p] is not a staging file of a part recorded in [assembly]. *)
Definition outsideGroup (assembly : MultipartAssembly) (p : string) : Prop :=
  forall k partId, parts assembly !! k = Some partId ->
    p <> staged env partId /\ p <> staged env (partId +:+ ".json").

(** The base file is not a staging file of a part recorded under an index of
    the loop. *)
Definition baseApart (assembly : MultipartAssembly) (baseFilePath : string)
    (indices : list Z) : Prop :=
  forall i partId, i ∈ indices -> parts assembly !! Some i = Some partId ->
    baseFilePath <> staged env partId /\ baseFilePath <> staged env (partId +:+ ".json").

End FailureVocabulary.

(** A decimal digit, as [parseInt] reads it. *)
Definition is_decimal (c : ascii) : Prop := is_Some (digit_val 10 c).



(** *** The header [parseMetadata] reads *)

(** A key or an encoded value as the header carries it: not empty, with no
    comma and no space. *)
Definition is_token (s : string) : bool :=
  negb (bool_decide (chars s = []))
  && forallb (fun c => negb (Ascii.eqb c ","%char) && negb (Ascii.eqb c " "%char)) (chars s).

(** No code unit of [l] is the separator. *)
Definition no_sep (sep : ascii) (l : list ascii) : Prop :=
  Forall (fun c => Ascii.eqb c sep = false) l.

(** One item of the header: a key followed by a space and its encoded value,
    or a key alone. *)
Definition headerItem (item : string * option string) : list ascii :=
  match item.2 with
  | Some value => chars item.1 ++ " "%char :: chars value
  | None => chars item.1
  end.

Fixpoint joinItems (items : list (list ascii)) : list ascii :=
  match items with
  | [] => []
  | [item] => item
  | item :: rest => item ++ ","%char :: joinItems rest
  end.

Definition metadataHeader (items : list (string * option string)) : string :=
  str (joinItems (map headerItem items)).

Definition wellFormedItem (item : string * option string) : bool :=
  is_token item.1 && from_option is_token true item.2.

(** What the items with a value decode to. *)
Definition decodedEntries (base64 : string -> string)
    (items : list (string * option string)) : list (string * string) :=
  omap (fun item => match item.2 with
                    | Some value => Some (item.1, base64 value)
                    | None => None
                    end) items.

(** *** A solo upload, chunk by chunk *)

Section ChunkVocabulary.
Context (env : Env) {codec : JsonCodec}.

(** The PATCH requests with the bodies [chunks] are accepted one after the
    other on [uploadId], none of them reaching the size. *)
Inductive chunksAccepted (uploadId : string) : list bytes -> Server -> Server -> Prop :=
  | chunksAccepted_nil (s : Server) : chunksAccepted uploadId [] s s
  | chunksAccepted_cons (req : Request) (info : UploadInfo) (o : Z)
      (chunks : list bytes) (s s' : Server) :
      wellFormedPatch req ->
      default EmptyString (param_id req) = uploadId ->
      sidecar env s uploadId = Some info ->
      ui_offset info = Some o ->
      parseInt (default EmptyString (upload_offset req)) = Some o ->
      denied env (staged env uploadId) = false ->
      denied env (staged env (uploadId +:+ ".json")) = false ->
      reached (o + Z.of_nat (length (req_body req))) (ui_size info) = false ->
      chunksAccepted uploadId chunks (snd (PATCH env req s)) s' ->
      chunksAccepted uploadId (req_body req :: chunks) s s'.


End ChunkVocabulary.

(** *** Settlements of the parts of one file *)

(** The reason of the first part that failed, if any. *)
Fixpoint firstError (events : list Settlement) : option string :=
  match events with
  | [] => None
  | fulfilled :: rest => firstError rest
  | rejected reason :: _ => Some reason
  end.

(** The number of parts that succeeded before the first failure. *)
Fixpoint fulfilledBefore (events : list Settlement) : Z :=
  match events with
  | fulfilled :: rest => 1 + fulfilledBefore rest
  | _ => 0
  end.

(** ** A codec for the examples *)

(** The examples run the model on concrete stores, which takes one concrete
    pair of functions with the round trip of [JsonCodec].  This one writes
    the fields of a sidecar one after the other, each self-delimiting; the
    theorems never look inside a codec. *)

Definition Decoder (A : Type) : Type := bytes -> option (A * bytes).

Fixpoint enc_string (s : string) : bytes :=
  match s with
  | EmptyString => [Byte.x00]
  | String c r => Byte.x01 :: byte_of_ascii c :: enc_string r
  end.

Fixpoint dec_string (l : bytes) : option (string * bytes) :=
  match l with
  | Byte.x00 :: rest => Some (EmptyString, rest)
  | Byte.x01 :: c :: rest =>
      match dec_string rest with
      | Some (s, rest') => Some (String (ascii_of_byte c) s, rest')
      | None => None
      end
  | _ => None
  end.

Fixpoint enc_pos (p : positive) : bytes :=
  match p with
  | xH => [Byte.x00]
  | xO q => Byte.x30 :: enc_pos q
  | xI q => Byte.x31 :: enc_pos q
  end.

Fixpoint dec_pos (l : bytes) : option (positive * bytes) :=
  match l with
  | Byte.x00 :: rest => Some (xH, rest)
  | Byte.x30 :: rest =>
      match dec_pos rest with Some (p, r) => Some (xO p, r) | None => None end
  | Byte.x31 :: rest =>
      match dec_pos rest with Some (p, r) => Some (xI p, r) | None => None end
  | _ => None
  end.

Definition enc_Z (z : Z) : bytes :=
  match z with
  | Z0 => [Byte.x00]
  | Zpos p => Byte.x01 :: enc_pos p
  | Zneg p => Byte.x02 :: enc_pos p
  end.

Definition dec_Z : Decoder Z := fun l =>
  match l with
  | Byte.x00 :: rest => Some (Z0, rest)
  | Byte.x01 :: rest =>
      match dec_pos rest with Some (p, r) => Some (Zpos p, r) | None => None end
  | Byte.x02 :: rest =>
      match dec_pos rest with Some (p, r) => Some (Zneg p, r) | None => None end
  | _ => None
  end.

Definition enc_opt {A} (enc : A -> bytes) (o : option A) : bytes :=
  match o with
  | None => [Byte.x00]
  | Some a => Byte.x01 :: enc a
  end.

Definition dec_opt {A} (dec : Decoder A) : Decoder (option A) := fun l =>
  match l with
  | Byte.x00 :: rest => Some (None, rest)
  | Byte.x01 :: rest =>
      match dec rest with Some (a, r) => Some (Some a, r) | None => None end
  | _ => None
  end.

Definition enc_meta (m : UploadMetadata) : bytes :=
  enc_opt enc_string (filename m) ++ enc_opt enc_string (filetype m)
  ++ enc_opt enc_string (multipartId m) ++ enc_opt enc_string (partIndex m)
  ++ enc_opt enc_string (totalParts m) ++ enc_opt enc_string (originalFileSize m)
  ++ enc_opt enc_string (withFilename m) ++ enc_opt enc_string (onDuplicate m)
  ++ enc_opt enc_string (destinationPath m).

Definition dec_meta : Decoder UploadMetadata := fun l =>
  '(a, l) ← dec_opt dec_string l;
  '(b, l) ← dec_opt dec_string l;
  '(c, l) ← dec_opt dec_string l;
  '(d, l) ← dec_opt dec_string l;
  '(e, l) ← dec_opt dec_string l;
  '(f, l) ← dec_opt dec_string l;
  '(g, l) ← dec_opt dec_string l;
  '(h, l) ← dec_opt dec_string l;
  '(i, l) ← dec_opt dec_string l;
  Some (mkUploadMetadata a b c d e f g h i, l).

Definition enc_info (u : UploadInfo) : bytes :=
  enc_string (ui_id u) ++ enc_opt enc_Z (ui_size u) ++ enc_opt enc_Z (ui_offset u)
  ++ enc_meta (ui_metadata u) ++ enc_string (ui_creation_date u).

Definition dec_info (l : bytes) : option UploadInfo :=
  '(a, l) ← dec_string l;
  '(b, l) ← dec_opt dec_Z l;
  '(c, l) ← dec_opt dec_Z l;
  '(d, l) ← dec_meta l;
  '(e, l) ← dec_string l;
  match l with
  | [] => Some (mkUploadInfo a b c d e)
  | _ => None
  end.

(** The codec, with its round trip: every decoder gives back what its
    encoder wrote and the bytes behind it. *)
Definition exampleCodec : JsonCodec.
Proof.
  refine {| stringify := enc_info; parse := dec_info; parse_stringify := _ |}.
  assert (Hstring : forall s rest, dec_string (enc_string s ++ rest) = Some (s, rest)).
  { induction s as [|c s IH]; intros rest; simpl; [reflexivity|].
    rewrite IH, ascii_of_byte_of_ascii. reflexivity. }
  assert (Hpos : forall p rest, dec_pos (enc_pos p ++ rest) = Some (p, rest)).
  { induction p as [p IH|p IH|]; intros rest; simpl;
      [rewrite IH | rewrite IH |]; reflexivity. }
  assert (HZ : forall z rest, dec_Z (enc_Z z ++ rest) = Some (z, rest)).
  { intros [|p|p] rest; simpl; [|rewrite Hpos..]; reflexivity. }
  assert (Hopt : forall A (enc : A -> bytes) (dec : Decoder A),
             (forall a rest, dec (enc a ++ rest) = Some (a, rest)) ->
             forall o rest, dec_opt dec (enc_opt enc o ++ rest) = Some (o, rest)).
  { intros A enc dec H [a|] rest; simpl; [rewrite H|]; reflexivity. }
  assert (Hmeta : forall m rest, dec_meta (enc_meta m ++ rest) = Some (m, rest)).
  { intros [] rest. unfold enc_meta, dec_meta.
    cbn [filename filetype multipartId partIndex totalParts originalFileSize
         withFilename onDuplicate destinationPath].
    rewrite <- ?app_assoc.
    repeat (rewrite (Hopt _ enc_string dec_string Hstring); cbn [mbind option_bind]).
    reflexivity. }
  intros []. unfold enc_info, dec_info.
  cbn [ui_id ui_size ui_offset ui_metadata ui_creation_date].
  rewrite <- ?app_assoc.
  rewrite Hstring; cbn [mbind option_bind].
  repeat (rewrite (Hopt _ enc_Z dec_Z HZ); cbn [mbind option_bind]).
  rewrite Hmeta; cbn [mbind option_bind].
  rewrite <- (app_nil_r (enc_string _)), Hstring; cbn [mbind option_bind].
  reflexivity.
Defined.


(** ** Stores and requests of the examples *)

(** The stores of the examples: staging in [staging], destination in
    [uploads], no registered strategy, nothing refused. *)
Definition plainEnv : Env :=
  {| stagingDir := "staging"; mountPath := "uploads";
     registeredDuplicate := ∅; registeredFilename := ∅;
     denied := fun _ => false; exdev := fun _ _ => false |}.

Definition emptyServer : Server := {| fs := ∅; assemblies := ∅ |}.

Definition createRequest (len : string) (meta : UploadMetadata) : Request :=
  {| param_id := None; upload_length := Some len; upload_offset := None;
     content_type := None; req_metadata := meta; req_body := [];
     forwarded_proto := None; forwarded_host := None; host := None |}.

Definition patchRequest (uploadId offset : string) (data : bytes) : Request :=
  {| param_id := Some uploadId; upload_length := None;
     upload_offset := Some offset;
     content_type := Some "application/offset+octet-stream"%string;
     req_metadata := noMetadata; req_body := data;
     forwarded_proto := None; forwarded_host := None; host := None |}.

Definition headRequest (uploadId : string) : Request :=
  {| param_id := Some uploadId; upload_length := None; upload_offset := None;
     content_type := None; req_metadata := noMetadata; req_body := [];
     forwarded_proto := None; forwarded_host := None; host := None |}.

(** Scenario 6: an upload of 100 bytes has been created under the id [u1]. *)
Definition created100_info : UploadInfo :=
  {| ui_id := "u1"; ui_size := Some 100; ui_offset := Some 0;
     ui_metadata := noMetadata; ui_creation_date := "t0" |}.

Definition created100 : Server :=
  snd (POST plainEnv (codec := exampleCodec) (createRequest "100" noMetadata)
         "u1" "t0" emptyServer).

(** Scenario 2: [report.pdf] has been uploaded under its original name. *)
Definition reportMetadata : UploadMetadata :=
  {| filename := Some "report.pdf"; filetype := Some "application/pdf";
     multipartId := None; partIndex := None; totalParts := None;
     originalFileSize := None;
     withFilename := Some "original"; onDuplicate := Some "prevent";
     destinationPath := None |}%string.





(** Scenario 5: three parts of one file, created as [p1], [p2], [p3], and
    completed in the order part 2, part 3, part 1. *)
Definition partMetadata (index : string) : UploadMetadata :=
  {| filename := Some "movie.bin"; filetype := Some "video/raw";
     multipartId := Some "M"; partIndex := Some index; totalParts := Some "3";
     originalFileSize := Some "6";
     withFilename := Some "original"; onDuplicate := Some "prevent";
     destinationPath := None |}%string.

Definition partInfo (uploadId index : string) : UploadInfo :=
  {| ui_id := uploadId; ui_size := Some 2; ui_offset := Some 0;
     ui_metadata := partMetadata index; ui_creation_date := "t0" |}.

Definition threeCreated : Server :=
  let s1 := snd (POST plainEnv (codec := exampleCodec)
                   (createRequest "2" (partMetadata "1")) "p1" "t0" emptyServer) in
  let s2 := snd (POST plainEnv (codec := exampleCodec)
                   (createRequest "2" (partMetadata "2")) "p2" "t0" s1) in
  snd (POST plainEnv (codec := exampleCodec)
         (createRequest "2" (partMetadata "3")) "p3" "t0" s2).

Definition afterPart2 : Server :=
  snd (PATCH plainEnv (codec := exampleCodec)
         (patchRequest "p2" "0" [Byte.x03; Byte.x04]) threeCreated).

Definition afterPart3 : Server :=
  snd (PATCH plainEnv (codec := exampleCodec)
         (patchRequest "p3" "0" [Byte.x05; Byte.x06]) afterPart2).

Definition afterPart1 : Server :=
  snd (PATCH plainEnv (codec := exampleCodec)
         (patchRequest "p1" "0" [Byte.x01; Byte.x02]) afterPart3).

(** Scenario 6 continued: one byte of the 100 has been appended. *)
Definition appended1 : Server :=
  snd (PATCH plainEnv (codec := exampleCodec)
         (patchRequest "u1" "0" [Byte.x61]) created100).

(** Part 2 of scenario 5 receives three bytes where it announced two. *)
Definition overlong : Server :=
  snd (PATCH plainEnv (codec := exampleCodec)
         (patchRequest "p2" "0" [Byte.x03; Byte.x04; Byte.x05]) threeCreated).









(** A server whose staging and destination directories are on two volumes, and
    whose destination refuses the sidecar [uploads/u1.json]. *)
Definition twoVolumesEnv : Env :=
  {| stagingDir := "staging"; mountPath := "uploads";
     registeredDuplicate := ∅; registeredFilename := ∅;
     denied := fun p => bool_decide (p = "uploads/u1.json"%string);
     exdev := fun from to => negb (bool_decide (take 7 (chars from) = take 7 (chars to))) |}.

Definition sameVolumeEnv : Env :=
  {| stagingDir := "staging"; mountPath := "uploads";
     registeredDuplicate := ∅; registeredFilename := ∅;
     denied := fun p => bool_decide (p = "uploads/u1.json"%string);
     exdev := fun _ _ => false |}.

(** A finished upload [u1] in staging: three bytes and a sidecar. *)
Definition stagedU1 : Server :=
  {| fs := <[ "staging/u1"%string := [Byte.x61; Byte.x62; Byte.x63] ]>
             (<[ "staging/u1.json"%string := [Byte.x7b; Byte.x7d] ]> ∅);
     assemblies := ∅ |}.

(** Scenario 2 in two chunks: [report.pdf], three bytes, created as [u2]; the
    first byte has been accepted. *)
Definition reportInfo : UploadInfo :=
  {| ui_id := "u2"; ui_size := Some 3; ui_offset := Some 0;
     ui_metadata := reportMetadata; ui_creation_date := "t0" |}.

Definition reportCreated : Server :=
  snd (POST plainEnv (codec := exampleCodec)
         (createRequest "3" reportMetadata) "u2" "t0" emptyServer).

Definition reportChunk1 : Server :=
  snd (PATCH plainEnv (codec := exampleCodec)
         (patchRequest "u2" "0" [Byte.x25]) reportCreated).

(** A queue with one finished file and two pending ones of 1 GB and 3 GB. *)
Definition mixedQueue : list QueuedFile :=
  [ {| qf_id := "f1"; qf_name := "done.bin"; qf_size := 10; qf_status := completed |};
    {| qf_id := "f2"; qf_name := "one.bin"; qf_size := 1024 * MB; qf_status := pending |};
    {| qf_id := "f3"; qf_name := "three.bin"; qf_size := 3072 * MB;
       qf_status := pending |} ]%string.

(** A three-byte file sent by the client as a group of one part, staged as
    [q1]. *)
Definition abcFile : ClientFile :=
  {| cf_name := "abc.txt"; cf_type := "text/plain";
     cf_bytes := [Byte.x61; Byte.x62; Byte.x63] |}.

Definition originalConfig : ClientConfig :=
  {| cfg_withFilename := "original"; cfg_onDuplicate := "prevent";
     cfg_destinationPath := "" |}.


(** * Part II: verification *)

(** ** Partitioning policy *)

Lemma ceil_div_spec (a b : Z) :
  0 < b -> b * (ceil_div a b - 1) < a <= b * ceil_div a b.
Proof.
  intros Hb. unfold ceil_div.
  pose proof (Z.div_mod (- a) b ltac:(lia)) as Hdm.
  pose proof (Z.mod_pos_bound (- a) b Hb) as Hm.
  nia.
Qed.

(** C7: [getPartCount] is 1 up to 512 MiB, 8 above 4096 MiB, and in between
    the ceiling of [size / 512 MiB], that is the one [q] with
    [512 MiB * (q - 1) < size <= 512 MiB * q]; the four threshold values are
    1, 2, 8 and 8. *)
Theorem getPartCount_thresholds (fileSize : Z) :
  (fileSize <= 512 * MB -> getPartCount fileSize = 1) /\
  (fileSize > 4096 * MB -> getPartCount fileSize = 8) /\
  (512 * MB < fileSize <= 4096 * MB ->
     getPartCount fileSize = ceil_div fileSize (512 * MB) /\
     512 * MB * (getPartCount fileSize - 1) < fileSize
       <= 512 * MB * getPartCount fileSize) /\
  getPartCount (512 * MB) = 1 /\
  getPartCount (512 * MB + 1) = 2 /\
  getPartCount (4096 * MB) = 8 /\
  getPartCount (4096 * MB + 1) = 8.
Proof.
  unfold getPartCount.
  repeat split; try reflexivity.
  - intros H. destruct (Z.leb_spec fileSize (512 * MB)); [reflexivity | lia].
  - intros H. destruct (Z.leb_spec fileSize (512 * MB)) as [H1|H1].
    + unfold MB in *. lia.
    + destruct (Z.gtb_spec fileSize (4096 * MB)); [reflexivity | lia].
  - destruct H as [H1 H2].
    destruct (Z.leb_spec fileSize (512 * MB)); [lia|].
    destruct (Z.gtb_spec fileSize (4096 * MB)); [lia | reflexivity].
  - destruct H as [H1 H2].
    destruct (Z.leb_spec fileSize (512 * MB)); [lia|].
    destruct (Z.gtb_spec fileSize (4096 * MB)); [lia|].
    apply ceil_div_spec. unfold MB. lia.
  - destruct H as [H1 H2].
    destruct (Z.leb_spec fileSize (512 * MB)); [lia|].
    destruct (Z.gtb_spec fileSize (4096 * MB)); [lia|].
    apply ceil_div_spec. unfold MB. lia.
Qed.

(** A file of 1.5 GiB is cut into three parts. *)
Lemma getPartCount_thresholds_witness :
  512 * MB < 1536 * MB <= 4096 * MB /\ getPartCount (1536 * MB) = 3.
Proof.
  assert (H : 512 * MB < 1536 * MB <= 4096 * MB) by (unfold MB; lia).
  split; [exact H|].
  destruct (getPartCount_thresholds (1536 * MB)) as (_ & _ & Hmid & _).
  destruct (Hmid H) as [_ Hb]. unfold MB in *. lia.
Defined.

(** ** Batch selection *)

Lemma backtrack_unfold maxStreams currentBatch rest currentTotal best :
  backtrack maxStreams currentBatch rest currentTotal best =
  if currentTotal >? maxStreams then best
  else backtrackLoop maxStreams currentBatch currentTotal rest
         (if currentTotal >? snd best then (currentBatch, currentTotal) else best).
Proof.
  destruct rest as [|file rest]; simpl.
  - reflexivity.
  - destruct (currentTotal >? maxStreams); [reflexivity|].
    match goal with
    | |- ?loop rest ?b = _ =>
        assert (Hloop : forall l b', loop l b' =
                  backtrackLoop maxStreams currentBatch currentTotal l b')
    end.
    { induction l as [|g l IH]; intros b'; [reflexivity|]. simpl. apply IH. }
    apply Hloop.
Qed.

Lemma totalStreams_sumParts batch : totalStreams batch = sumParts batch.
Proof.
  unfold totalStreams.
  assert (H : forall acc, fold_left (fun sum file => sum + fw_parts file) batch acc
                          = acc + sumParts batch).
  { induction batch as [|f batch IH]; intros acc; simpl; [lia|]. rewrite IH. lia. }
  rewrite H. lia.
Qed.

Lemma sumParts_app l1 l2 : sumParts (l1 ++ l2) = sumParts l1 + sumParts l2.
Proof. induction l1 as [|f l1 IH]; simpl; lia. Qed.

Lemma sumParts_nonneg l :
  Forall (fun f => 0 <= fw_parts f) l -> 0 <= sumParts l.
Proof. induction 1; simpl; lia. Qed.

Lemma sublist_Forall_parts (P : FileWithParts -> Prop) S l :
  sublist S l -> Forall P l -> Forall P S.
Proof.
  induction 1 as [|x S l HS IH|x S l HS IH]; intros Hl.
  - constructor.
  - inversion Hl; subst. constructor; auto.
  - inversion Hl; subst. auto.
Qed.

Lemma backtrack_searched maxStreams (n : nat) :
  forall rest cur total best,
    (length rest <= n)%nat ->
    Forall (fun f => 0 <= fw_parts f) rest ->
    searched maxStreams cur rest total best
      (backtrack maxStreams cur rest total best).
Proof.
  unfold searched, loopSearched.
  induction n as [|n IHn].
  - intros rest cur total best Hlen _.
    destruct rest; [|simpl in Hlen; lia].
    rewrite backtrack_unfold. simpl.
    destruct (Z.gtb_spec total maxStreams) as [Hgt|Hle].
    + repeat split; simpl; [lia | | left; reflexivity].
      intros S HS. apply sublist_nil_r in HS as ->. simpl. lia.
    + destruct (Z.gtb_spec total (snd best)) as [Hb|Hb]; simpl.
      * repeat split; simpl; [lia | |].
        -- intros S HS. apply sublist_nil_r in HS as ->. simpl. lia.
        -- right. exists []. rewrite app_nil_r. simpl.
           rewrite Z.add_0_r. repeat split; [constructor | lia].
      * repeat split; simpl; [lia | | left; reflexivity].
        intros S HS. apply sublist_nil_r in HS as ->. simpl. lia.
  - intros rest cur total best Hlen Hpos.
    rewrite backtrack_unfold.
    destruct (Z.gtb_spec total maxStreams) as [Hgt|Hle].
    { repeat split; simpl; [lia | | left; reflexivity].
      intros S HS Hfeas.
      pose proof (sumParts_nonneg S (sublist_Forall_parts _ _ _ HS Hpos)). lia. }
    assert (Hloop : forall l b,
               (length l <= S n)%nat ->
               Forall (fun f => 0 <= fw_parts f) l ->
               loopSearched maxStreams cur l total b
                 (backtrackLoop maxStreams cur total l b)).
    { clear rest best Hlen Hpos.
      induction l as [|file l IHl]; intros b Hlen Hpos; simpl.
      - repeat split; simpl; [lia | | left; reflexivity].
        intros S HS. apply sublist_nil_r in HS as ->. simpl. lia.
      - inversion Hpos as [|? ? Hfile Hpos']; subst.
        simpl in Hlen.
        set (b' := if total + fw_parts file <=? maxStreams then _ else b).
        assert (Hb' : snd b <= snd b' /\
                      (forall S, sublist S l ->
                         total + fw_parts file + sumParts S <= maxStreams ->
                         total + fw_parts file + sumParts S <= snd b') /\
                      (b' = b \/
                       exists S, sublist S (file :: l) /\
                         b' = (cur ++ S, total + sumParts S) /\
                         total + sumParts S <= maxStreams)).
        { subst b'.
          destruct (Z.leb_spec (total + fw_parts file) maxStreams) as [Hfit|Hno].
          - destruct (IHn l (cur ++ [file]) (total + fw_parts file) b
                        ltac:(lia) Hpos') as (H1 & H2 & H3).
            repeat split; [exact H1 | exact H2 |].
            destruct H3 as [H3 | (S & HS & Hr & Hfeas)]; [left; exact H3|].
            right. exists (file :: S). simpl.
            repeat split; [by apply sublist_skip | | lia].
            rewrite Hr, <- app_assoc. simpl. f_equal. lia.
          - repeat split; simpl; [lia | | left; reflexivity].
            intros S HS Hfeas.
            pose proof (sumParts_nonneg S (sublist_Forall_parts _ _ _ HS Hpos')).
            lia. }
        destruct Hb' as (Hb1 & Hb2 & Hb3).
        destruct (IHl b' ltac:(lia) Hpos') as (H1 & H2 & H3).
        repeat split.
        + lia.
        + intros S HS Hfeas Htot.
          apply sublist_cons_r in HS as [HS | (S' & -> & HS')].
          * apply H2; [exact HS | exact Hfeas | lia].
          * simpl in Hfeas |- *.
            specialize (Hb2 S' HS' ltac:(lia)). lia.
        + destruct H3 as [H3 | (S & HS & Hr & Hfeas)].
          * rewrite H3. destruct Hb3 as [Hb3 | Hb3]; [left; exact Hb3 | right; exact Hb3].
          * right. exists S. repeat split; [by apply sublist_cons | exact Hr | exact Hfeas]. }
    match goal with
    | |- context [backtrackLoop _ _ _ _ ?b] => remember b as best1 eqn:Ebest1
    end.
    destruct (Hloop rest best1 Hlen Hpos) as (H1 & H2 & H3).
    assert (Hbest1 : snd best <= snd best1 /\ total <= snd best1).
    { subst best1. destruct (Z.gtb_spec total (snd best)); simpl; lia. }
    repeat split.
    + lia.
    + intros S HS Hfeas. apply H2; [exact HS | exact Hfeas | lia].
    + destruct H3 as [H3 | H3]; [|right; exact H3].
      rewrite H3. subst best1.
      destruct (Z.gtb_spec total (snd best)); [|left; reflexivity].
      right. exists []. rewrite app_nil_r. simpl. rewrite Z.add_0_r.
      repeat split; [apply sublist_nil_l | lia].
Qed.


Lemma findOptimalBatch_searched files maxStreams :
  0 <= maxStreams ->
  Forall (fun f => 0 <= fw_parts f) files ->
  sublist (findOptimalBatch files maxStreams) files /\
  sumParts (findOptimalBatch files maxStreams) <= maxStreams /\
  forall S, sublist S files -> sumParts S <= maxStreams ->
            sumParts S <= sumParts (findOptimalBatch files maxStreams).
Proof.
  intros Hmax Hpos. unfold findOptimalBatch.
  destruct files as [|f files]; simpl length; cbn [Nat.eqb].
  - repeat split; [constructor | simpl; lia |].
    intros S HS _. apply sublist_nil_r in HS as ->. simpl. lia.
  - destruct (backtrack_searched maxStreams (length (f :: files)) (f :: files)
                [] 0 ([], 0) (le_n _) Hpos) as (H1 & H2 & H3).
    simpl in H1.
    destruct H3 as [H3 | (S & HS & Hr & Hfeas)].
    + rewrite H3 in *. simpl in *. repeat split; [apply sublist_nil_l | lia |].
      intros S HS Hfeas. specialize (H2 S HS). lia.
    + rewrite Hr in *. simpl in *. repeat split; [exact HS | lia |].
      intros S' HS' Hfeas'. specialize (H2 S' HS'). lia.
Qed.

(** C8: the batch [findOptimalBatch] chooses is made of pending files, fits
    the capacity, and no selection of pending files that contains it and
    fits the capacity has a larger summed part count; when it is empty, the
    first pending file alone exceeds the capacity and the scheduler starts
    that file by itself. *)
Theorem findOptimalBatch_maximal (files : list FileWithParts) (maxStreamCount : Z) :
  0 <= maxStreamCount ->
  Forall (fun f => 1 <= fw_parts f) files ->
  sublist (findOptimalBatch files maxStreamCount) files /\
  totalStreams (findOptimalBatch files maxStreamCount) <= maxStreamCount /\
  (forall B',
     sublist (findOptimalBatch files maxStreamCount) B' ->
     sublist B' files ->
     totalStreams B' <= maxStreamCount ->
     ~ totalStreams B' > totalStreams (findOptimalBatch files maxStreamCount)) /\
  (forall first others,
     files = first :: others ->
     findOptimalBatch files maxStreamCount = [] ->
     maxStreamCount < fw_parts first /\
     selectBatch files maxStreamCount = Some [first]) /\
  (findOptimalBatch files maxStreamCount <> [] ->
   selectBatch files maxStreamCount = Some (findOptimalBatch files maxStreamCount)).
Proof.
  intros Hmax Hparts.
  assert (Hpos : Forall (fun f => 0 <= fw_parts f) files).
  { eapply Forall_impl; [exact Hparts|]. simpl. intros; lia. }
  destruct (findOptimalBatch_searched files maxStreamCount Hmax Hpos)
    as (Hsub & Hfit & Hopt).
  rewrite !totalStreams_sumParts.
  repeat split.
  - exact Hsub.
  - exact Hfit.
  - intros B' _ HB' Hfeas. rewrite !totalStreams_sumParts in *.
    specialize (Hopt B' HB' Hfeas). lia.
  - destruct (Z.lt_ge_cases maxStreamCount (fw_parts first)) as [Hlt|Hge]; [exact Hlt|].
    subst files. rewrite H0 in Hopt.
    specialize (Hopt [first] ltac:(apply sublist_skip, sublist_nil_l)).
    simpl in Hopt. inversion Hparts; subst. lia.
  - subst files. unfold selectBatch. rewrite H0. reflexivity.
  - intros Hne. unfold selectBatch.
    destruct files as [|first others].
    + unfold findOptimalBatch in Hne. simpl in Hne. congruence.
    + destruct (findOptimalBatch (first :: others) maxStreamCount); [congruence|].
      reflexivity.
Qed.

(** Four pending files of 3, 5, 4 and 4 parts and eight streams: the first two
    fill the budget. *)
Lemma findOptimalBatch_maximal_witness :
  map fw_id (findOptimalBatch
               [mkFileWithParts "a" "a" 0 3; mkFileWithParts "b" "b" 0 5;
                mkFileWithParts "c" "c" 0 4; mkFileWithParts "d" "d" 0 4] 8)
    = ["a"; "b"]%string /\
  totalStreams (findOptimalBatch
               [mkFileWithParts "a" "a" 0 3; mkFileWithParts "b" "b" 0 5;
                mkFileWithParts "c" "c" 0 4; mkFileWithParts "d" "d" 0 4] 8) <= 8.
Proof.
  split; [reflexivity|].
  refine (proj1 (proj2 (findOptimalBatch_maximal
               [mkFileWithParts "a" "a" 0 3; mkFileWithParts "b" "b" 0 5;
                mkFileWithParts "c" "c" 0 4; mkFileWithParts "d" "d" 0 4] 8 _ _))).
  - lia.
  - repeat constructor; simpl; lia.
Defined.

(** Scenario 7 of the specification: one pending file of 16 parts and eight
    streams.  The search returns nothing and the scheduler starts the file. *)
Example forced_singleton :
  findOptimalBatch [mkFileWithParts "big" "big" 0 16] 8 = [] /\
  selectBatch [mkFileWithParts "big" "big" 0 16] 8
    = Some [mkFileWithParts "big" "big" 0 16].
Proof. split; reflexivity. Qed.

(** The part counts the driver computes are at least one. *)
Lemma remainingFiles_parts queue :
  Forall (fun f => 1 <= fw_parts f) (remainingFiles queue).
Proof.
  unfold remainingFiles. apply Forall_map, Forall_forall. intros f _. simpl.
  unfold getPartCount.
  destruct (Z.leb_spec (qf_size f) (512 * MB)); [lia|].
  destruct (Z.gtb_spec (qf_size f) (4096 * MB)); [lia|].
  pose proof (ceil_div_spec (qf_size f) (512 * MB) ltac:(unfold MB; lia)).
  unfold MB in *. nia.
Qed.

(** ** Strings *)

Lemma chars_str l : chars (str l) = l.
Proof. apply list_ascii_of_string_of_list_ascii. Qed.

Lemma str_chars s : str (chars s) = s.
Proof. apply string_of_list_ascii_of_string. Qed.

Lemma str_nil_inv l : str l = EmptyString -> l = [].
Proof. destruct l; [reflexivity | discriminate]. Qed.

Lemma last_rev {A} (l : list A) : last (rev l) = head l.
Proof. rewrite rev_alt. apply last_reverse. Qed.

Section DropWhile.
Context {A : Type} (p : A -> bool).

Lemma dropWhile_head l x : head (dropWhile p l) = Some x -> p x = false.
Proof.
  induction l as [|y l IH]; simpl; [discriminate|].
  destruct (p y) eqn:Hy; [exact IH|]. simpl. intros [= <-]. exact Hy.
Qed.

Lemma dropWhile_keep l :
  (forall x, head l = Some x -> p x = false) -> dropWhile p l = l.
Proof.
  destruct l as [|y l]; [reflexivity|]. simpl. intros H.
  rewrite (H y eq_refl). reflexivity.
Qed.

Lemma dropWhile_suffix l : exists k, l = k ++ dropWhile p l.
Proof.
  induction l as [|y l [k IH]]; simpl; [exists []; reflexivity|].
  destruct (p y); [|exists []; reflexivity].
  exists (y :: k). simpl. f_equal. exact IH.
Qed.

Lemma dropWhileEnd_snoc l x :
  dropWhileEnd p (l ++ [x]) = if p x then dropWhileEnd p l else l ++ [x].
Proof.
  unfold dropWhileEnd. rewrite rev_app_distr. simpl.
  destruct (p x); [reflexivity|]. simpl. rewrite rev_involutive. reflexivity.
Qed.

Lemma dropWhileEnd_last l x : last (dropWhileEnd p l) = Some x -> p x = false.
Proof.
  unfold dropWhileEnd. rewrite last_rev. apply dropWhile_head.
Qed.

Lemma dropWhileEnd_keep l :
  (forall x, last l = Some x -> p x = false) -> dropWhileEnd p l = l.
Proof.
  intros H. unfold dropWhileEnd. rewrite dropWhile_keep.
  - apply rev_involutive.
  - intros x Hx. apply H. rewrite <- (rev_involutive l), last_rev. exact Hx.
Qed.

Lemma dropWhileEnd_prefix l : exists k, l = dropWhileEnd p l ++ k.
Proof.
  unfold dropWhileEnd. destruct (dropWhile_suffix (rev l)) as [k Hk].
  exists (rev k). rewrite <- rev_app_distr, <- Hk, rev_involutive. reflexivity.
Qed.

Lemma dropWhileEnd_head l :
  dropWhileEnd p l <> [] -> head (dropWhileEnd p l) = head l.
Proof.
  intros Hne. destruct (dropWhileEnd_prefix l) as [k Hk].
  rewrite Hk at 2. destruct (dropWhileEnd p l); [congruence | reflexivity].
Qed.

End DropWhile.

(** The remainder of a path once trimmed and stripped of the slashes at both
    ends neither begins nor ends with a slash. *)
Lemma stripSlashes_head l c :
  head (stripSlashes l) = Some c -> is_slash c = false.
Proof.
  unfold stripSlashes. intros H.
  assert (Hne : dropWhileEnd is_slash (dropWhile is_slash l) <> []).
  { intros E. rewrite E in H. discriminate. }
  rewrite dropWhileEnd_head in H by exact Hne.
  eapply dropWhile_head, H.
Qed.

Lemma stripSlashes_last l c :
  last (stripSlashes l) = Some c -> is_slash c = false.
Proof. apply dropWhileEnd_last. Qed.

Lemma endsWith_slash l :
  endsWith l "/"%char = match last l with Some c => is_slash c | None => false end.
Proof. reflexivity. Qed.

Lemma normalizeDestinationPath_chars s :
  normalizeDestinationPath (Some s) = str (normalizeChars (chars s)) \/
  (s = EmptyString /\ normalizeDestinationPath (Some s) = EmptyString).
Proof. destruct s; [right; split; reflexivity | left; reflexivity]. Qed.

Lemma normalizeChars_core l :
  stripSlashes (trim l) <> [] ->
  normalizeChars l = stripSlashes (trim l) ++ ["/"%char].
Proof.
  intros Hne. unfold normalizeChars. cbv zeta.
  rewrite bool_decide_eq_false_2 by exact Hne. simpl negb at 1.
  rewrite endsWith_slash.
  destruct (last (stripSlashes (trim l))) as [c|] eqn:Hlast.
  - rewrite (stripSlashes_last _ _ Hlast). reflexivity.
  - reflexivity.
Qed.

Lemma normalizeChars_nil l :
  stripSlashes (trim l) = [] -> normalizeChars l = [].
Proof.
  intros E. unfold normalizeChars. cbv zeta. rewrite E. reflexivity.
Qed.

(** A path that already is [core ++ "/"], with a core that begins with
    neither white space nor a slash and does not end with a slash, is left
    alone. *)
Lemma normalizeChars_fixed core :
  core <> [] ->
  (forall c, head core = Some c -> is_white c = false) ->
  (forall c, head core = Some c -> is_slash c = false) ->
  (forall c, last core = Some c -> is_slash c = false) ->
  normalizeChars (core ++ ["/"%char]) = core ++ ["/"%char].
Proof.
  intros Hne Hw Hs Hl.
  assert (Hhead : head (core ++ ["/"%char]) = head core).
  { destruct core; [congruence | reflexivity]. }
  assert (Htrim : trim (core ++ ["/"%char]) = core ++ ["/"%char]).
  { unfold trim. rewrite dropWhile_keep.
    - rewrite dropWhileEnd_snoc. reflexivity.
    - intros c. rewrite Hhead. apply Hw. }
  assert (Hstrip : stripSlashes (core ++ ["/"%char]) = core).
  { unfold stripSlashes. rewrite dropWhile_keep.
    - rewrite dropWhileEnd_snoc. simpl. apply dropWhileEnd_keep, Hl.
    - intros c. rewrite Hhead. apply Hs. }
  unfold normalizeChars. cbv zeta. rewrite Htrim, Hstrip.
  rewrite bool_decide_eq_false_2 by exact Hne. simpl negb at 1.
  rewrite endsWith_slash.
  destruct (last core) as [c|] eqn:Hlast.
  - rewrite (Hl c eq_refl). reflexivity.
  - reflexivity.
Qed.

Lemma sanitizeFilename_safe c :
  is_safe_char (if is_safe_char c then c else "_"%char) = true.
Proof. destruct (is_safe_char c) eqn:E; [exact E | reflexivity]. Qed.

(** C10, amended: [sanitizeFilename] is idempotent on every string;
    [normalizeDestinationPath] maps the empty and the undefined path to the
    empty string, every non-empty output ends with a slash, and
    normalising twice equals normalising once for every path whose remainder
    after trimming and stripping the outer slashes does not begin with white
    space. *)
Theorem sanitize_normalize_idempotent :
  (forall s, sanitizeFilename (sanitizeFilename s) = sanitizeFilename s) /\
  (forall p,
     (forall c, head (stripSlashes (trim (chars (default EmptyString p)))) = Some c ->
                is_white c = false) ->
     normalizeDestinationPath (Some (normalizeDestinationPath p))
       = normalizeDestinationPath p) /\
  normalizeDestinationPath (Some EmptyString) = EmptyString /\
  normalizeDestinationPath None = EmptyString /\
  (forall p, normalizeDestinationPath p <> EmptyString ->
             endsWith (chars (normalizeDestinationPath p)) "/"%char = true).
Proof.
  split; [|split; [|split; [reflexivity | split; [reflexivity|]]]].
  - intros s. unfold sanitizeFilename. rewrite chars_str. f_equal.
    rewrite map_map. apply map_ext. intros c.
    rewrite sanitizeFilename_safe. reflexivity.
  - intros [s|] Hw; [|reflexivity].
    destruct s as [|a s]; [reflexivity|].
    simpl default in Hw.
    change (normalizeDestinationPath (Some (String a s)))
      with (str (normalizeChars (chars (String a s)))).
    set (l := chars (String a s)) in *.
    destruct (decide (stripSlashes (trim l) = [])) as [E|Hne].
    + rewrite (normalizeChars_nil _ E). reflexivity.
    + rewrite (normalizeChars_core _ Hne).
      destruct (normalizeDestinationPath_chars
                  (str (stripSlashes (trim l) ++ ["/"%char]))) as [-> | [E _]].
      * rewrite chars_str. f_equal.
        apply normalizeChars_fixed; [exact Hne | exact Hw | |].
        -- apply stripSlashes_head.
        -- apply stripSlashes_last.
      * apply str_nil_inv in E. destruct (stripSlashes (trim l)); discriminate.
  - intros [s|] Hne; [|exfalso; apply Hne; reflexivity].
    destruct s as [|a s]; [exfalso; apply Hne; reflexivity|].
    change (normalizeDestinationPath (Some (String a s)))
      with (str (normalizeChars (chars (String a s)))) in *.
    set (l := chars (String a s)) in *.
    destruct (decide (stripSlashes (trim l) = [])) as [E|Hcore].
    + rewrite (normalizeChars_nil _ E) in Hne. exfalso; apply Hne; reflexivity.
    + rewrite (normalizeChars_core _ Hcore), chars_str.
      unfold endsWith. rewrite last_snoc. reflexivity.
Qed.

(** A path with inner and outer slashes: normalising twice changes nothing. *)
Lemma sanitize_normalize_idempotent_witness :
  normalizeDestinationPath (Some (normalizeDestinationPath (Some "//media/2024//")))
    = normalizeDestinationPath (Some "//media/2024//")%string.
Proof.
  apply (proj1 (proj2 sanitize_normalize_idempotent) (Some "//media/2024//"%string)).
  intros c. vm_compute. intros [= <-]. reflexivity.
Defined.

(** C10 as stated fails: a space after a leading slash survives the first
    normalisation (the trim runs before the slashes are stripped) and is
    trimmed by the second. *)
Lemma normalize_not_idempotent :
  normalizeDestinationPath (Some "/ a") = " a/"%string /\
  normalizeDestinationPath (Some (normalizeDestinationPath (Some "/ a")))
    = "a/"%string /\
  ~ (forall p, normalizeDestinationPath (Some (normalizeDestinationPath p))
               = normalizeDestinationPath p).
Proof.
  split; [reflexivity | split; [reflexivity|]].
  intros H. specialize (H (Some "/ a"%string)). vm_compute in H. discriminate.
Qed.

(** ** The endpoint *)

Section RouteFacts.
Context (env : Env) {codec : JsonCodec}.


(** PATCH on a well-formed request whose offset matches: the body is
    appended, the sidecar rewritten, and the response is decided by
    [handleUploadComplete] once the size is reached. *)
Lemma PATCH_accepted (req : Request) (s : Server) (info : UploadInfo) (o : Z) :
  wellFormedPatch req ->
  sidecar env s (default EmptyString (param_id req)) = Some info ->
  ui_offset info = Some o ->
  parseInt (default EmptyString (upload_offset req)) = Some o ->
  denied env (staged env (default EmptyString (param_id req))) = false ->
  denied env (staged env (default EmptyString (param_id req) +:+ ".json")) = false ->
  PATCH env req s =
    let uploadId := default EmptyString (param_id req) in
    let n := Z.of_nat (length (req_body req)) in
    let s1 := appended env s uploadId info (req_body req) in
    if reached (o + n) (ui_size info) then
      match handleUploadComplete env uploadId (advanced info n) s1 with
      | (Ok complete, s2) => (Ok (accepted (o + n) complete), s2)
      | (Throw _, s2) => (Ok internalError, s2)
      end
    else (Ok (accepted (o + n) false), s1).
Proof.
  intros (Hid & Hoff & Hct) Hside Hstored Hparsed Hd1 Hd2.
  unfold PATCH, sidecar in *.
  rewrite Hid, Hoff, Hct. simpl negb. cbv iota.
  destruct (fs s !! staged env (default EmptyString (param_id req) +:+ ".json"))
    as [raw|] eqn:Hraw; [|discriminate].
  simpl in Hside.
  unfold existsSync, readFileSync, appendFileSync, writeFileSync.
  rewrite Hd1, Hd2.
  munfold. simpl. rewrite Hraw.
  rewrite bool_decide_eq_true_2 by eauto. simpl.
  rewrite ?Hraw, Hside. simpl. rewrite Hparsed, Hstored. simpl.
  rewrite Z.eqb_refl. simpl.
  unfold appended, advanced, accepted. rewrite Hstored. simpl.
  destruct (reached _ _); [|reflexivity].
  match goal with |- context [handleUploadComplete ?a ?b ?c ?d] =>
    destruct (handleUploadComplete a b c d) as [[complete|e] s2] end;
  reflexivity.
Qed.

Lemma strictNe_ne (a b : option Z) : a <> b -> strictNe a b = true.
Proof.
  destruct a as [x|], b as [y|]; simpl; try reflexivity.
  intros H. destruct (Z.eqb_spec x y); [congruence | reflexivity].
Qed.

Lemma PATCH_mismatch (req : Request) (s : Server) (info : UploadInfo) :
  wellFormedPatch req ->
  sidecar env s (default EmptyString (param_id req)) = Some info ->
  strictNe (parseInt (default EmptyString (upload_offset req))) (ui_offset info) = true ->
  PATCH env req s =
    (Ok {| status := 409; headers := []; body := ErrorText "Offset mismatch" |}, s).
Proof.
  intros (Hid & Hoff & Hct) Hside Hne.
  unfold PATCH, sidecar in *.
  rewrite Hid, Hoff, Hct. simpl negb. cbv iota.
  destruct (fs s !! staged env (default EmptyString (param_id req) +:+ ".json"))
    as [raw|] eqn:Hraw; [|discriminate].
  simpl in Hside.
  unfold existsSync, readFileSync.
  munfold. simpl. rewrite Hraw.
  rewrite bool_decide_eq_true_2 by eauto. simpl.
  rewrite ?Hraw, Hside. simpl. rewrite Hne. reflexivity.
Qed.

Lemma HEAD_reports (req : Request) (s : Server) (info : UploadInfo) (o n : Z) :
  truthy (param_id req) = true ->
  sidecar env s (default EmptyString (param_id req)) = Some info ->
  ui_offset info = Some o ->
  ui_size info = Some n ->
  HEAD env req s =
    (Ok {| status := 200;
           headers := [("Tus-Resumable", "1.0.0"); ("Upload-Offset", pretty o);
                       ("Upload-Length", pretty n); ("Cache-Control", "no-store")]%string;
           body := NoBody |}, s).
Proof.
  intros Hid Hside Ho Hn.
  unfold HEAD, sidecar in *. rewrite Hid. simpl negb. cbv iota.
  destruct (fs s !! staged env (default EmptyString (param_id req) +:+ ".json"))
    as [raw|] eqn:Hraw; [|discriminate].
  simpl in Hside.
  unfold existsSync, readFileSync.
  munfold. simpl. rewrite Hraw.
  rewrite bool_decide_eq_true_2 by eauto. simpl.
  rewrite ?Hraw, Hside. simpl. rewrite Ho, Hn. reflexivity.
Qed.

End RouteFacts.

(** C3: a well-formed PATCH whose [Upload-Offset] is not the offset stored in
    the sidecar is answered 409 and leaves the server as it was: no byte is
    appended, the sidecar is not rewritten, and a HEAD on the same id answers
    after the PATCH what it answered before, which is the stored offset. *)
Theorem PATCH_offset_mismatch_rejected (env : Env) (codec : JsonCodec)
    (req : Request) (s : Server) (info : UploadInfo) :
  wellFormedPatch req ->
  sidecar env s (default EmptyString (param_id req)) = Some info ->
  parseInt (default EmptyString (upload_offset req)) <> ui_offset info ->
  PATCH env req s =
    (Ok {| status := 409; headers := []; body := ErrorText "Offset mismatch" |}, s) /\
  payload env (snd (PATCH env req s)) (default EmptyString (param_id req))
    = payload env s (default EmptyString (param_id req)) /\
  sidecar env (snd (PATCH env req s)) (default EmptyString (param_id req)) = Some info /\
  (forall hreq, HEAD env hreq (snd (PATCH env req s)) = HEAD env hreq s) /\
  (forall hreq o n,
     param_id hreq = param_id req ->
     ui_offset info = Some o -> ui_size info = Some n ->
     In ("Upload-Offset"%string, pretty o)
        (match fst (HEAD env hreq (snd (PATCH env req s))) with
         | Ok r => headers r
         | Throw _ => []
         end)).
Proof.
  intros Hwf Hside Hne.
  pose proof (PATCH_mismatch env req s info Hwf Hside (strictNe_ne _ _ Hne)) as HP.
  rewrite HP. simpl snd.
  repeat split; try reflexivity; try exact Hside.
  intros hreq o n Hid Ho Hn.
  destruct Hwf as (Htruthy & _).
  rewrite (HEAD_reports env hreq s info o n); rewrite ?Hid; auto.
  simpl. auto.
Qed.

(** Scenario 6 of the specification: after the creation of a 100-byte
    upload, a first PATCH at offset 5 is refused and changes nothing. *)
Lemma PATCH_offset_mismatch_rejected_witness :
  @PATCH plainEnv exampleCodec (patchRequest "u1" "5" [Byte.x01]) created100 =
    (Ok {| status := 409; headers := []; body := ErrorText "Offset mismatch" |},
     created100).
Proof.
  refine (proj1 (PATCH_offset_mismatch_rejected plainEnv exampleCodec
                   (patchRequest "u1" "5" [Byte.x01]) created100 created100_info
                   _ _ _)).
  - repeat split; reflexivity.
  - vm_compute. reflexivity.
  - vm_compute. discriminate.
Defined.

Example HEAD_after_mismatch :
  fst (@HEAD plainEnv exampleCodec (headRequest "u1")
         (snd (@PATCH plainEnv exampleCodec (patchRequest "u1" "5" [Byte.x01]) created100)))
  = Ok {| status := 200;
          headers := [("Tus-Resumable", "1.0.0"); ("Upload-Offset", "0");
                      ("Upload-Length", "100"); ("Cache-Control", "no-store")]%string;
          body := NoBody |}.
Proof. vm_compute. reflexivity. Qed.

Section CreateFacts.
Context (env : Env) {codec : JsonCodec}.


End CreateFacts.



Section Finalize.
Context (env : Env) {codec : JsonCodec}.






End Finalize.



(** ** The multipart assembler *)

Section ManagerFacts.
Context (env : Env) {codec : JsonCodec}.

(** [handlePartCompletion] records the part, and runs the reassembly when
    the entry then holds [totalParts] parts; the entry is removed after the
    reassembly, whether it returned or threw. *)
Lemma handlePartCompletion_unfold uploadId meta s :
  handlePartCompletion env uploadId meta s =
    if allPartsReceived (recordedAssembly s uploadId meta) then
      match assembleFile env (default EmptyString (multipartId meta))
              (recordedAssembly s uploadId meta) (recorded s uploadId meta) with
      | (Ok _, s') => (Ok true, forgotten s' (default EmptyString (multipartId meta)))
      | (Throw e, s') => (Throw e, forgotten s' (default EmptyString (multipartId meta)))
      end
    else (Ok false, recorded s uploadId meta).
Proof.
  unfold handlePartCompletion, recorded, recordedAssembly, forgotten.
  munfold. simpl.
  destruct (assemblies s !! default EmptyString (multipartId meta)) as [a|] eqn:Ha; simpl.
  - rewrite ?Ha. simpl.
    destruct (allPartsReceived _); [|reflexivity].
    match goal with |- context [assembleFile ?a ?b ?c ?d] =>
      destruct (assembleFile a b c d) as [[[]|e] s'] end; reflexivity.
  - rewrite ?lookup_insert_eq. simpl. rewrite ?insert_insert_eq.
    destruct (allPartsReceived _); [|reflexivity].
    match goal with |- context [assembleFile ?a ?b ?c ?d] =>
      destruct (assembleFile a b c d) as [[[]|e] s'] end; reflexivity.
Qed.



Lemma handlePartCompletion_waiting uploadId meta s :
  allPartsReceived (recordedAssembly s uploadId meta) = false ->
  handlePartCompletion env uploadId meta s = (Ok false, recorded s uploadId meta).
Proof. intros H. rewrite handlePartCompletion_unfold, H. reflexivity. Qed.


End ManagerFacts.




(** ** Offsets *)

Lemma path_join_inj (a b1 b2 : string) :
  b1 <> EmptyString -> b2 <> EmptyString ->
  path_join a b1 = path_join a b2 -> b1 = b2.
Proof.
  intros H1 H2. unfold path_join.
  destruct b1 as [|c1 b1]; [congruence|]. destruct b2 as [|c2 b2]; [congruence|].
  destruct a as [|c a]; [auto|].
  destruct (endsWith _ _); intros H.
  - apply (String.app_inj (String c a)) in H. exact H.
  - apply (String.app_inj (String c a)) in H.
    apply (String.app_inj "/") in H. exact H.
Qed.

Lemma string_length_app (s1 s2 : string) :
  String.length (s1 +:+ s2) = (String.length s1 + String.length s2)%nat.
Proof. induction s1 as [|c s1 IH]; simpl; [reflexivity | rewrite IH; reflexivity]. Qed.

Lemma json_suffix_ne (name : string) : name <> name +:+ ".json".
Proof.
  intros H. apply (f_equal String.length) in H.
  rewrite string_length_app in H. simpl in H. lia.
Qed.

Lemma json_suffix_nonempty (name : string) : name +:+ ".json" <> EmptyString.
Proof. destruct name; discriminate. Qed.

Lemma staged_json_ne (env : Env) (name : string) :
  name <> EmptyString -> staged env name <> staged env (name +:+ ".json").
Proof.
  intros Hne H. apply path_join_inj in H; [|exact Hne | apply json_suffix_nonempty].
  exact (json_suffix_ne name H).
Qed.

Section OffsetFacts.
Context (env : Env) {codec : JsonCodec}.

Lemma sidecar_appended s uploadId info buffer :
  sidecar env (appended env s uploadId info buffer) uploadId
    = Some (advanced info (Z.of_nat (length buffer))).
Proof.
  unfold sidecar, appended. simpl. rewrite lookup_insert_eq. simpl.
  apply parse_stringify.
Qed.

Lemma payload_appended s uploadId info buffer :
  uploadId <> EmptyString ->
  payload env (appended env s uploadId info buffer) uploadId
    = Some (default [] (payload env s uploadId) ++ buffer).
Proof.
  intros Hne. unfold payload, appended. simpl.
  rewrite lookup_insert_ne by (apply not_eq_sym, staged_json_ne, Hne).
  rewrite lookup_insert_eq. reflexivity.
Qed.

Lemma payloadLength_appended s uploadId info buffer :
  uploadId <> EmptyString ->
  payloadLength env (appended env s uploadId info buffer) uploadId
    = payloadLength env s uploadId + Z.of_nat (length buffer).
Proof.
  intros Hne. unfold payloadLength. rewrite payload_appended by exact Hne.
  simpl. rewrite length_app. lia.
Qed.

End OffsetFacts.

Section OffsetInvariant.
Context (env : Env) {codec : JsonCodec}.

Lemma reached_false (x n : Z) : reached x (Some n) = false -> x < n.
Proof. unfold reached. simpl. intros H. apply Z.leb_gt in H. exact H. Qed.

(** One accepted PATCH that does not reach the size: the store is the old one
    with the body appended and the sidecar advanced. *)
Lemma appendingPatch_appended uploadId s s' :
  appendingPatch env uploadId s s' ->
  exists info o buffer,
    sidecar env s uploadId = Some info /\ ui_offset info = Some o /\
    reached (o + Z.of_nat (length buffer)) (ui_size info) = false /\
    s' = appended env s uploadId info buffer.
Proof.
  intros [req info o Hwf Hid Hside Ho Hp Hd1 Hd2 Hr ->]. subst uploadId.
  exists info, o, (req_body req). repeat split; try assumption.
  rewrite (PATCH_accepted env req s info o Hwf Hside Ho Hp Hd1 Hd2).
  cbv zeta. rewrite Hr. reflexivity.
Qed.

Lemma appending_sequence uploadId s s' :
  uploadId <> EmptyString ->
  rtc (appendingPatch env uploadId) s s' ->
  forall info n o,
    sidecar env s uploadId = Some info ->
    ui_size info = Some n -> ui_offset info = Some o ->
    0 <= o <= n ->
    payloadLength env s uploadId = o ->
    exists info' o',
      sidecar env s' uploadId = Some info' /\
      ui_size info' = Some n /\ ui_offset info' = Some o' /\
      o <= o' /\ 0 <= o' <= n /\
      payloadLength env s' uploadId = o'.
Proof.
  intros Hne Hrtc. induction Hrtc as [s|s s1 s' Hstep Hrtc IH];
    intros info n o Hside Hn Ho Hrange Hlen.
  - exists info, o. repeat split; try assumption; lia.
  - destruct (appendingPatch_appended _ _ _ Hstep)
      as (info0 & o0 & buffer & Hside0 & Ho0 & Hr & ->).
    rewrite Hside in Hside0. injection Hside0 as <-.
    rewrite Ho in Ho0. injection Ho0 as <-.
    rewrite Hn in Hr. apply reached_false in Hr.
    destruct (IH (advanced info (Z.of_nat (length buffer))) n
                 (o + Z.of_nat (length buffer)))
      as (info' & o' & H1 & H2 & H3 & H4 & H5 & H6).
    + apply sidecar_appended.
    + exact Hn.
    + simpl. rewrite Ho. reflexivity.
    + lia.
    + rewrite payloadLength_appended by exact Hne. lia.
    + exists info', o'. repeat split; try assumption; lia.
Qed.

End OffsetInvariant.

(** C4, amended: across any sequence of accepted PATCH requests that have not
    yet reached the size, the stored offset never decreases, stays within
    [0 .. size] and equals the length of the payload file (so it is the size
    exactly when the payload holds [size] bytes).  The next accepted PATCH,
    completing or not, appends its body and stores the old offset plus the
    length of the body, which is at most the size exactly when the body fits
    in what remains; if it does not reach the size the store is left in that
    state. *)
Theorem stored_offset_invariant (env : Env) (codec : JsonCodec)
    (uploadId : string) (s s' : Server) (info : UploadInfo) (n o : Z) :
  uploadId <> EmptyString ->
  rtc (appendingPatch env uploadId) s s' ->
  sidecar env s uploadId = Some info ->
  ui_size info = Some n -> ui_offset info = Some o ->
  0 <= o <= n ->
  payloadLength env s uploadId = o ->
  exists info' o',
    sidecar env s' uploadId = Some info' /\
    ui_size info' = Some n /\ ui_offset info' = Some o' /\
    o <= o' /\ 0 <= o' <= n /\
    payloadLength env s' uploadId = o' /\
    (o' = n <-> payloadLength env s' uploadId = n) /\
    forall req,
      wellFormedPatch req ->
      default EmptyString (param_id req) = uploadId ->
      parseInt (default EmptyString (upload_offset req)) = Some o' ->
      denied env (staged env uploadId) = false ->
      denied env (staged env (uploadId +:+ ".json")) = false ->
      (exists r, fst (PATCH env req s') = Ok r /\
                 (status r = 204 ->
                  hasHeader "Upload-Offset"
                    (pretty (o' + Z.of_nat (length (req_body req)))) r)) /\
      sidecar env (appended env s' uploadId info' (req_body req)) uploadId
        = Some (advanced info' (Z.of_nat (length (req_body req)))) /\
      ui_offset (advanced info' (Z.of_nat (length (req_body req))))
        = Some (o' + Z.of_nat (length (req_body req))) /\
      o' <= o' + Z.of_nat (length (req_body req)) /\
      payloadLength env (appended env s' uploadId info' (req_body req)) uploadId
        = o' + Z.of_nat (length (req_body req)) /\
      (o' + Z.of_nat (length (req_body req)) <= n <->
         Z.of_nat (length (req_body req)) <= n - o') /\
      (reached (o' + Z.of_nat (length (req_body req))) (Some n) = false ->
         snd (PATCH env req s') = appended env s' uploadId info' (req_body req) /\
         o' + Z.of_nat (length (req_body req)) < n).
Proof.
  intros Hne Hrtc Hside Hn Ho Hrange Hlen.
  destruct (appending_sequence env uploadId s s' Hne Hrtc info n o
              Hside Hn Ho Hrange Hlen)
    as (info' & o' & H1 & H2 & H3 & H4 & H5 & H6).
  exists info', o'.
  split; [exact H1|]. split; [exact H2|]. split; [exact H3|].
  split; [exact H4|]. split; [exact H5|]. split; [exact H6|].
  split; [rewrite H6; tauto|].
  intros req Hwf Hid Hp Hd1 Hd2. subst uploadId.
  pose proof (PATCH_accepted env req s' info' o' Hwf H1 H3 Hp Hd1 Hd2) as HP.
  cbv zeta in HP.
  split; [|split; [|split; [|split; [|split; [|split]]]]].
  - rewrite HP. destruct (reached _ _).
    + destruct (handleUploadComplete env _ _ _) as [[complete|e] s2].
      * eexists. split; [reflexivity|]. intros _. right. left. reflexivity.
      * eexists. split; [reflexivity|]. simpl. discriminate.
    + eexists. split; [reflexivity|]. intros _. right. left. reflexivity.
  - apply sidecar_appended.
  - simpl. rewrite H3. reflexivity.
  - lia.
  - rewrite payloadLength_appended by exact Hne. lia.
  - lia.
  - intros Hr. rewrite HP, H2, Hr. split; [reflexivity|].
    apply reached_false in Hr. exact Hr.
Qed.

(** One byte appended to the 100-byte upload of scenario 6. *)
Lemma stored_offset_invariant_witness :
  exists info' o',
    sidecar plainEnv (codec := exampleCodec) appended1 "u1" = Some info' /\
    ui_size info' = Some 100 /\ ui_offset info' = Some o' /\
    0 <= o' <= 100 /\
    payloadLength plainEnv appended1 "u1" = o'.
Proof.
  assert (Hstep : appendingPatch plainEnv (codec := exampleCodec) "u1"
                    created100 appended1).
  { apply (appendingPatch_intro plainEnv "u1" created100 appended1
             (patchRequest "u1" "0" [Byte.x61]) created100_info 0).
    - repeat split; reflexivity.
    - reflexivity.
    - vm_compute. reflexivity.
    - reflexivity.
    - vm_compute. reflexivity.
    - reflexivity.
    - reflexivity.
    - vm_compute. reflexivity.
    - reflexivity. }
  destruct (stored_offset_invariant plainEnv exampleCodec "u1" created100 appended1
              created100_info 100 0
              ltac:(discriminate)
              (rtc_once _ _ Hstep)
              ltac:(vm_compute; reflexivity) eq_refl eq_refl
              ltac:(lia)
              ltac:(vm_compute; reflexivity))
    as (info' & o' & H1 & H2 & H3 & _ & H5 & H6 & _).
  exists info', o'. repeat split; try assumption; lia.
Defined.

(** C4 as stated fails: the handler does not compare the length of the body
    with what remains.  A part created with [Upload-Length: 2] accepts three
    bytes at offset 0, and its sidecar then holds offset 3 with size 2. *)
Lemma offset_exceeds_size :
  sidecar plainEnv (codec := exampleCodec) threeCreated "p2" = Some (partInfo "p2" "2") /\
  fst (@PATCH plainEnv exampleCodec
         (patchRequest "p2" "0" [Byte.x03; Byte.x04; Byte.x05]) threeCreated)
    = Ok (accepted 3 false) /\
  sidecar plainEnv (codec := exampleCodec) overlong "p2"
    = Some (advanced (partInfo "p2" "2") 3) /\
  ui_size (advanced (partInfo "p2" "2") 3) = Some 2 /\
  ui_offset (advanced (partInfo "p2" "2") 3) = Some 3 /\
  ~ (forall (req : Request) (s : Server) (info : UploadInfo) (o n : Z),
       status <$> (match fst (@PATCH plainEnv exampleCodec req s) with
                   | Ok r => Some r | Throw _ => None end) = Some 204 ->
       sidecar plainEnv (codec := exampleCodec)
         (snd (@PATCH plainEnv exampleCodec req s))
         (default EmptyString (param_id req)) = Some info ->
       ui_offset info = Some o -> ui_size info = Some n ->
       0 <= o <= n).
Proof.
  split; [vm_compute; reflexivity|].
  split; [vm_compute; reflexivity|].
  split; [vm_compute; reflexivity|].
  split; [reflexivity|]. split; [reflexivity|].
  intros H.
  specialize (H (patchRequest "p2" "0" [Byte.x03; Byte.x04; Byte.x05]) threeCreated
                (advanced (partInfo "p2" "2") 3) 3 2).
  assert (0 <= 3 <= 2) as [_ Hbad]; [|lia].
  apply H; vm_compute; reflexivity.
Qed.

(** ** Reassembly *)

Section AssembleFacts.
Context (env : Env) {codec : JsonCodec}.

Lemma cleanupPartFiles_eq partId s :
  cleanupPartFiles env partId s =
    (Ok tt, {| fs := delete (staged env (partId +:+ ".json"))
                       (delete (staged env partId) (fs s));
               assemblies := assemblies s |}).
Proof.
  unfold cleanupPartFiles, existsSync, unlinkSync. munfold. simpl.
  destruct (fs s !! staged env partId) as [data|] eqn:Hp; simpl.
  - try (rewrite bool_decide_eq_true_2 by eauto); simpl. rewrite Hp. simpl.
    destruct (delete (staged env partId) (fs s) !! staged env (partId +:+ ".json"))
      as [j|] eqn:Hj; simpl.
    + try (rewrite bool_decide_eq_true_2 by eauto); simpl. rewrite Hj. reflexivity.
    + try (rewrite bool_decide_eq_false_2 by (intros [? ?]; discriminate)); simpl.
      rewrite (delete_id _ _ Hj). destruct s; reflexivity.
  - try (rewrite bool_decide_eq_false_2 by (intros [? ?]; discriminate)); simpl.
    rewrite (delete_id _ _ Hp).
    destruct (fs s !! staged env (partId +:+ ".json")) as [j|] eqn:Hj; simpl.
    + try (rewrite bool_decide_eq_true_2 by eauto); simpl. rewrite Hj. reflexivity.
    + try (rewrite bool_decide_eq_false_2 by (intros [? ?]; discriminate)); simpl.
      rewrite (delete_id _ _ Hj). destruct s; reflexivity.
Qed.

Lemma appendPartToFile_eq baseFilePath partPath s :
  appendPartToFile env baseFilePath partPath s =
    match fs s !! partPath with
    | None => (Throw ENOENT, s)
    | Some data =>
        if denied env baseFilePath then (Throw EACCES, s)
        else (Ok tt, {| fs := <[baseFilePath :=
                                  default [] (fs s !! baseFilePath) ++ data]> (fs s);
                        assemblies := assemblies s |})
    end.
Proof.
  unfold appendPartToFile, readFileSync, appendFileSync. munfold. simpl.
  destruct (fs s !! partPath); simpl; [|reflexivity].
  destruct (denied env baseFilePath); reflexivity.
Qed.

Lemma appendParts_cons assembly baseFilePath i rest s :
  appendParts env assembly baseFilePath (i :: rest) s =
    match parts assembly !! Some i with
    | None => (Throw TypeError, s)
    | Some partId =>
        match appendPartToFile env baseFilePath (staged env partId) s with
        | (Ok _, s1) =>
            appendParts env assembly baseFilePath rest
              (snd (cleanupPartFiles env partId s1))
        | (Throw e, s1) => (Throw e, s1)
        end
    end.
Proof.
  cbn [appendParts]. unfold mbind, M_bind, defined.
  destruct (parts assembly !! Some i) as [partId|]; [|reflexivity].
  unfold mret, M_ret.
  destruct (appendPartToFile env baseFilePath (staged env partId) s) as [[[]|e] s1];
    [|reflexivity].
  rewrite cleanupPartFiles_eq. reflexivity.
Qed.





Lemma moveFileWithFallback_eq from to s :
  from <> to ->
  moveFileWithFallback env from to s =
    match fs s !! from with
    | None => (Ok false, s)
    | Some data =>
        if denied env to then (Ok false, s)
        else (Ok true, {| fs := <[to := data]> (delete from (fs s));
                          assemblies := assemblies s |})
    end.
Proof.
  intros Hne.
  unfold moveFileWithFallback, renameSync, copyFileSync, unlinkSync. munfold. simpl.
  destruct (fs s !! from) as [data|] eqn:Hfrom; simpl; [|reflexivity].
  destruct (denied env to); simpl; [reflexivity|].
  destruct (exdev env from to); simpl; [|reflexivity].
  rewrite Hfrom. simpl.
  rewrite lookup_insert_ne by congruence. rewrite Hfrom. simpl.
  rewrite delete_insert_ne by congruence. reflexivity.
Qed.

Lemma handleJsonFile_eq jsonPath destination keepJson s :
  jsonPath <> destination +:+ ".json" ->
  handleJsonFile env jsonPath destination keepJson s =
    match fs s !! jsonPath with
    | None => (Ok true, s)
    | Some raw =>
        if keepJson then
          if denied env (destination +:+ ".json") then (Ok false, s)
          else (Ok true, {| fs := <[destination +:+ ".json" := raw]>
                                    (delete jsonPath (fs s));
                            assemblies := assemblies s |})
        else (Ok true, {| fs := delete jsonPath (fs s); assemblies := assemblies s |})
    end.
Proof.
  intros Hne. unfold handleJsonFile, existsSync. munfold. simpl.
  destruct (fs s !! jsonPath) as [raw|] eqn:Hraw; simpl.
  - try (rewrite bool_decide_eq_true_2 by eauto); simpl.
    destruct keepJson.
    + rewrite (moveFileWithFallback_eq _ _ _ Hne), Hraw.
      destruct (denied env (destination +:+ ".json")); reflexivity.
    + unfold unlinkSync. munfold. simpl. rewrite Hraw. reflexivity.
  - try (rewrite bool_decide_eq_false_2 by (intros [? ?]; discriminate)); simpl.
    reflexivity.
Qed.


(** [updateAssembledMetadata] never throws; it rewrites the sidecar when the
    old one is there, parses, and the path takes the write. *)
Lemma updateAssembledMetadata_eq fileId meta s :
  updateAssembledMetadata env fileId meta s =
    (Ok tt,
     match fs s !! staged env (fileId +:+ ".json") ≫= parse with
     | Some original =>
         if denied env (staged env (fileId +:+ ".json")) then s
         else {| fs := <[staged env (fileId +:+ ".json") :=
                           stringify (assembledInfo fileId meta original)]> (fs s);
                 assemblies := assemblies s |}
     | None => s
     end).
Proof.
  unfold updateAssembledMetadata, readFileSync, writeFileSync. munfold. simpl.
  destruct (fs s !! staged env (fileId +:+ ".json")) as [raw|]; simpl; [|reflexivity].
  destruct (parse raw) as [original|]; simpl; [|reflexivity].
  destruct (denied env (staged env (fileId +:+ ".json"))); reflexivity.
Qed.

Lemma getFinalFilename_eq meta uploadId s :
  getFinalFilename env meta uploadId s = (Ok (finalName env meta uploadId (fs s)), s).
Proof. reflexivity. Qed.

Lemma processAssembledFile_eq uploadId meta s :
  processAssembledFile env uploadId meta s =
    match moveFile env (staged env uploadId)
            (getFullFilePath env (finalName env meta uploadId (fs s))
               (destinationPath meta))
            (staged env (uploadId +:+ ".json"))
            (negb (usesOriginalFilename meta)) s with
    | (Ok _, s') => (Ok tt, s')
    | (Throw e, s') => (Throw e, s')
    end.
Proof.
  unfold processAssembledFile. unfold mbind, M_bind at 1.
  rewrite getFinalFilename_eq. unfold mbind, M_bind, mret, M_ret.
  destruct (moveFile _ _ _ _ _ _) as [[moved|e] s']; reflexivity.
Qed.


End AssembleFacts.
(** ** Completion order *)





Section ArrivalFacts.
Context (env : Env) {codec : JsonCodec}.



Lemma groupAssembly_total group n c l :
  inGroup group n c -> asm_totalParts (groupAssembly (c :: l)) = Some n.
Proof. intros [_ Hn]. exact Hn. Qed.




End ArrivalFacts.

(** ** Reassembly of a completed group *)

Section ReassemblyFacts.
Context (env : Env) {codec : JsonCodec}.




End ReassemblyFacts.




(** The same scenario through the endpoint: after the three PATCH requests
    the destination holds the six bytes and the staging directory is empty. *)
Example scenario5_through_PATCH :
  fs afterPart1 !! "uploads/movie.bin"%string
    = Some [Byte.x01; Byte.x02; Byte.x03; Byte.x04; Byte.x05; Byte.x06] /\
  size (fs afterPart1) = 1%nat /\
  assemblies afterPart1 = ∅.
Proof. vm_compute. repeat split. Qed.

(** ** Failures during reassembly *)

Section FailureFacts.
Context (env : Env) {codec : JsonCodec}.

(** Whatever the loop of [assembleFile] does, it leaves the manager's map and
    every file outside the group alone, and it only appends to the base
    file. *)
Lemma appendParts_frame assembly baseFilePath indices :
  forall s r s',
    appendParts env assembly baseFilePath indices s = (r, s') ->
    assemblies s' = assemblies s /\
    (forall p, p <> baseFilePath -> outsideGroup env assembly p ->
               fs s' !! p = fs s !! p) /\
    (baseApart env assembly baseFilePath indices ->
     exists extra,
       default [] (fs s' !! baseFilePath)
         = default [] (fs s !! baseFilePath) ++ extra).
Proof.
  induction indices as [|i indices IH]; intros s r s' Hrun.
  - injection Hrun as <- <-. split; [reflexivity|]. split; [reflexivity|].
    intros _. exists []. rewrite app_nil_r. reflexivity.
  - rewrite appendParts_cons in Hrun.
    destruct (parts assembly !! Some i) as [partId|] eqn:Hi.
    2:{ injection Hrun as <- <-. split; [reflexivity|]. split; [reflexivity|].
        intros _. exists []. rewrite app_nil_r. reflexivity. }
    rewrite appendPartToFile_eq in Hrun.
    destruct (fs s !! staged env partId) as [data|] eqn:Hdata.
    2:{ injection Hrun as <- <-. split; [reflexivity|]. split; [reflexivity|].
        intros _. exists []. rewrite app_nil_r. reflexivity. }
    destruct (denied env baseFilePath).
    { injection Hrun as <- <-. split; [reflexivity|]. split; [reflexivity|].
      intros _. exists []. rewrite app_nil_r. reflexivity. }
    rewrite cleanupPartFiles_eq in Hrun. cbn [snd fs assemblies] in Hrun.
    destruct (IH _ _ _ Hrun) as (Hasm & Hframe & Hbase).
    cbn [fs assemblies] in *.
    split; [exact Hasm|]. split.
    + intros p Hp Hout. rewrite Hframe by assumption.
      destruct (Hout _ _ Hi) as [H1 H2].
      rewrite !lookup_delete_ne by congruence.
      apply lookup_insert_ne. congruence.
    + intros Hapart.
      destruct Hbase as [extra Hextra].
      { intros j pid Hj Hpid. apply (Hapart j pid); [right; exact Hj | exact Hpid]. }
      destruct (Hapart i partId ltac:(left) Hi) as [H1 H2].
      exists (data ++ extra). rewrite Hextra.
      rewrite !lookup_delete_ne by congruence.
      rewrite lookup_insert_eq. simpl. rewrite app_assoc. reflexivity.
Qed.



End FailureFacts.




(** ** The client's parts *)

(** Consecutive slices of [p] bytes put the file back together. *)
Lemma chunks_concat (file : bytes) (p k : nat) :
  concat (map (fun i => take p (drop (i * p) file)) (seq 0 k)) = take (k * p) file.
Proof.
  induction k as [|k IH].
  - reflexivity.
  - rewrite seq_S, map_app, concat_app, IH. simpl. rewrite app_nil_r.
    rewrite take_take_drop. f_equal. lia.
Qed.

Lemma slice_chunk (file : bytes) (p : Z) (i : nat) :
  0 <= p ->
  slice file (Z.of_nat i * p) (Z.min (Z.of_nat i * p + p) (Z.of_nat (length file)))
    = take (Z.to_nat p) (drop (i * Z.to_nat p) file).
Proof.
  intros Hp. unfold slice. cbv zeta.
  set (size := Z.of_nat (length file)).
  assert (Hstart : 0 <= Z.of_nat i * p) by nia.
  destruct (Z.ltb_spec (Z.of_nat i * p) 0) as [|_]; [lia|].
  destruct (Z.ltb_spec (Z.min (Z.of_nat i * p + p) size) 0) as [|_]; [lia|].
  destruct (Z.le_gt_cases (Z.of_nat i * p) size) as [Hin|Hout].
  - rewrite (Z.min_l (Z.of_nat i * p) size) by lia.
    replace (Z.to_nat (Z.of_nat i * p)) with (i * Z.to_nat p)%nat by nia.
    destruct (Z.le_gt_cases (Z.of_nat i * p + p) size) as [Hfull|Hshort].
    + f_equal. lia.
    + rewrite (take_ge _ (Z.to_nat p)).
      * apply take_ge. rewrite length_drop. subst size. lia.
      * rewrite length_drop. subst size. nia.
  - rewrite (drop_ge file (i * Z.to_nat p)) by (subst size; nia).
    rewrite take_nil.
    rewrite (drop_ge file) by (subst size; lia).
    apply take_nil.
Qed.

(** The blobs of the sessions of [uploadFileMultipart], one after the other
    in index order, are the file; every session announces the file size as
    [originalFileSize]. *)
Lemma uploadFileMultipart_blobs cfg file multipartId :
  concat (map pu_blob (uploadFileMultipart cfg file multipartId)) = cf_bytes file /\
  Forall (fun part => originalFileSize (pu_metadata part)
                      = Some (pretty (Z.of_nat (length (cf_bytes file)))))
         (uploadFileMultipart cfg file multipartId).
Proof.
  unfold uploadFileMultipart. cbv zeta.
  set (size := Z.of_nat (length (cf_bytes file))).
  set (n := getPartCount size).
  assert (Hn : 1 <= n).
  { subst n. unfold getPartCount.
    destruct (Z.leb_spec size (512 * MB)); [lia|].
    destruct (Z.gtb_spec size (4096 * MB)); [lia|].
    pose proof (ceil_div_spec size (512 * MB) ltac:(unfold MB; lia)).
    unfold MB in *. nia. }
  pose proof (ceil_div_spec size n ltac:(lia)) as Hceil.
  set (p := ceil_div size n) in *.
  assert (Hp : 0 <= p) by (subst size; nia).
  split.
  - rewrite map_map. cbn [pu_blob uploadPart].
    replace (seqZ 0 n) with (map Z.of_nat (seq 0 (Z.to_nat n))).
    2:{ unfold seqZ. change (map Z.of_nat) with (fmap (M := list) Z.of_nat).
        apply list_fmap_ext. intros i x _. lia. }
    rewrite map_map.
    rewrite (map_ext _ (fun i => take (Z.to_nat p) (drop (i * Z.to_nat p) (cf_bytes file)))).
    2:{ intros i. apply slice_chunk. exact Hp. }
    rewrite chunks_concat. apply take_ge. subst size. nia.
  - apply Forall_forall. intros part Hin.
    apply list_elem_of_In, in_map_iff in Hin as (i & <- & _). reflexivity.
Qed.

(** *** [parseInt] reads back what [toString] writes *)

Lemma digits_value_app radix l1 l2 acc :
  Forall (fun c => is_Some (digit_val radix c)) l1 ->
  digits_value radix (l1 ++ l2) acc = digits_value radix l2 (digits_value radix l1 acc).
Proof.
  intros H. revert acc. induction H as [|c l1 [d Hd] _ IH]; intros acc; simpl.
  - reflexivity.
  - rewrite Hd. apply IH.
Qed.

Lemma digit_val_pretty_char (k : N) :
  (k < 10)%N -> digit_val 10 (pretty_N_char k) = Some (Z.of_N k).
Proof.
  intros Hk.
  assert (k = 0 \/ k = 1 \/ k = 2 \/ k = 3 \/ k = 4 \/ k = 5 \/ k = 6 \/ k = 7
          \/ k = 8 \/ k = 9)%N as H by lia.
  repeat (destruct H as [->|H]; [reflexivity|]). subst k. reflexivity.
Qed.

Lemma chars_pretty_N_go (x : N) :
  forall s, chars (pretty_N_go x s) = chars (pretty_N_go x EmptyString) ++ chars s.
Proof.
  induction (N.lt_wf_0 x) as [x _ IH]. intros s.
  destruct (N.eq_0_gt_0_cases x) as [->|Hpos].
  - rewrite !pretty_N_go_0. reflexivity.
  - rewrite (pretty_N_go_step x s), (pretty_N_go_step x EmptyString) by exact Hpos.
    rewrite (IH (x `div` 10)%N (N.div_lt x 10 Hpos eq_refl) (String _ s)).
    rewrite (IH (x `div` 10)%N (N.div_lt x 10 Hpos eq_refl) (String _ EmptyString)).
    rewrite <- app_assoc. reflexivity.
Qed.

Lemma digits_pretty_N_go (x : N) :
  Forall is_decimal (chars (pretty_N_go x EmptyString)) /\
  digits_value 10 (chars (pretty_N_go x EmptyString)) None
    = if decide (x = 0%N) then None else Some (Z.of_N x).
Proof.
  induction (N.lt_wf_0 x) as [x _ IH].
  destruct (N.eq_0_gt_0_cases x) as [->|Hpos].
  - rewrite pretty_N_go_0. split; [constructor | reflexivity].
  - rewrite (pretty_N_go_step x EmptyString) by exact Hpos.
    rewrite chars_pretty_N_go.
    destruct (IH (x `div` 10)%N (N.div_lt x 10 Hpos eq_refl)) as [Hall Hval].
    assert (Hmod : (x `mod` 10 < 10)%N) by (apply N.mod_lt; lia).
    pose proof (digit_val_pretty_char _ Hmod) as Hd.
    split.
    + apply Forall_app. split; [exact Hall|].
      constructor; [|constructor]. unfold is_decimal. rewrite Hd. eauto.
    + rewrite digits_value_app by exact Hall. rewrite Hval.
      simpl. rewrite Hd.
      rewrite (decide_False (P := x = 0%N)) by lia.
      f_equal. pose proof (N.div_mod x 10 ltac:(lia)) as Hdm.
      destruct (decide (x `div` 10 = 0)%N) as [E|E]; simpl; lia.
Qed.

Lemma is_decimal_range c : is_decimal c -> in_range 48 57 c = true.
Proof.
  unfold is_decimal, digit_val. intros [d Hd].
  destruct (in_range 48 57 c); [reflexivity|].
  destruct (in_range 97 122 c) eqn:Hlow.
  - unfold in_range in Hlow. apply andb_true_iff in Hlow as [H1 H2].
    apply N.leb_le in H1.
    destruct (Z.ltb_spec (Z.of_N (code c) - 87) 10); [lia | discriminate].
  - destruct (in_range 65 90 c) eqn:Hup; [|discriminate].
    unfold in_range in Hup. apply andb_true_iff in Hup as [H1 H2].
    apply N.leb_le in H1.
    destruct (Z.ltb_spec (Z.of_N (code c) - 55) 10); [lia | discriminate].
Qed.

(** On a non-empty string of decimal digits [parseInt] skips nothing, finds
    no sign and no [0x] prefix, and reads every digit. *)
Lemma parseInt_decimal (s : string) :
  chars s <> [] -> Forall is_decimal (chars s) ->
  parseInt s = digits_value 10 (chars s) None.
Proof.
  intros Hne Hall. unfold parseInt.
  destruct (chars s) as [|c l]; [congruence|].
  inversion Hall as [|? ? Hc Hl]; subst.
  pose proof (is_decimal_range c Hc) as Hr.
  assert (Hw : is_white c = false).
  { unfold in_range in Hr. apply andb_true_iff in Hr as [H1 H2].
    apply N.leb_le in H1. apply N.leb_le in H2.
    unfold is_white, in_range.
    destruct (N.leb_spec 9 (code c)), (N.leb_spec (code c) 13),
      (N.eqb_spec (code c) 32), (N.eqb_spec (code c) 160); simpl; try reflexivity; lia. }
  simpl dropWhile. rewrite Hw.
  assert (Hsign : c <> "-"%char /\ c <> "+"%char /\ (c = "0"%char \/ c <> "0"%char)).
  { repeat split; try (intros ->; discriminate).
    destruct (ascii_dec c "0"); auto. }
  destruct Hsign as (Hminus & Hplus & [->|Hzero]).
  - destruct l as [|c2 l2].
    + reflexivity.
    + inversion Hl as [|? ? Hc2 _]; subst.
      pose proof (is_decimal_range c2 Hc2) as Hr2.
      assert (c2 <> "x"%char /\ c2 <> "X"%char) as [Hx1 Hx2]
        by (split; intros ->; discriminate).
      destruct c2 as [[] [] [] [] [] [] [] []]; try congruence;
        try discriminate; destruct (digits_value 10 _ None); reflexivity.
  - destruct c as [[] [] [] [] [] [] [] []]; try congruence; try discriminate;
      destruct (digits_value 10 _ None); reflexivity.
Qed.

(** [parseInt(n.toString()) = n] for a count or a size. *)
Lemma parseInt_pretty (z : Z) : 0 <= z -> parseInt (pretty z) = Some z.
Proof.
  intros Hz. destruct z as [|p|p]; [reflexivity | | lia].
  change (pretty (Z.pos p)) with (pretty_N_go (N.pos p) EmptyString).
  destruct (digits_pretty_N_go (N.pos p)) as [Hall Hval].
  rewrite parseInt_decimal.
  - rewrite Hval. reflexivity.
  - intros E. rewrite E in Hval. discriminate.
  - exact Hall.
Qed.

(** *** From the client's sessions to the destination *)


Lemma getPartCount_pos (fileSize : Z) : 1 <= getPartCount fileSize.
Proof.
  unfold getPartCount.
  destruct (Z.leb_spec fileSize (512 * MB)); [lia|].
  destruct (Z.gtb_spec fileSize (4096 * MB)); [lia|].
  pose proof (ceil_div_spec fileSize (512 * MB) ltac:(unfold MB; lia)).
  unfold MB in *. nia.
Qed.




(** ** [getUniqueFilename] finds a free name *)







Section UniqueName.
Context (f : gmap string bytes) (dir base ext : string).


End UniqueName.


(** ** Further properties of the pure utilities *)

Lemma ceil_div_mono (a b d : Z) : 0 < d -> a <= b -> ceil_div a d <= ceil_div b d.
Proof.
  intros Hd Hab.
  pose proof (ceil_div_spec a d Hd). pose proof (ceil_div_spec b d Hd). nia.
Qed.

(** X1: [getPartCount] never leaves the range 1 .. 8 and never decreases when
    the file grows. *)
Theorem getPartCount_range_monotone (a b : Z) :
  a <= b -> 1 <= getPartCount a /\ getPartCount a <= getPartCount b /\ getPartCount b <= 8.
Proof.
  intros Hab. unfold getPartCount.
  assert (Hd : 0 < 512 * MB) by (unfold MB; lia).
  pose proof (ceil_div_spec a (512 * MB) Hd) as Ha.
  pose proof (ceil_div_spec b (512 * MB) Hd) as Hb.
  pose proof (ceil_div_mono a b (512 * MB) Hd Hab) as Hmono.
  destruct (Z.leb_spec a (512 * MB)), (Z.leb_spec b (512 * MB));
    destruct (Z.gtb_spec a (4096 * MB)), (Z.gtb_spec b (4096 * MB));
    unfold MB in *; try lia; nia.
Qed.

Lemma getPartCount_range_monotone_witness :
  getPartCount (600 * MB) <= getPartCount (3000 * MB) /\ getPartCount (3000 * MB) <= 8.
Proof.
  refine (proj2 (getPartCount_range_monotone (600 * MB) (3000 * MB) _)).
  unfold MB. lia.
Defined.

Lemma is_safe_not_slash c : is_safe_char c = true -> is_slash c = false.
Proof.
  unfold is_safe_char, is_slash, in_range. intros H.
  destruct (N.eqb_spec (code c) 47) as [E|]; [|reflexivity].
  rewrite E in H. discriminate.
Qed.

(** X2: [sanitizeFilename] keeps the length of the name, returns only
    characters of [A-Za-z0-9._-] (in particular no slash), and leaves a name
    alone exactly when the name already consists of such characters. *)
Theorem sanitizeFilename_charset (name : string) :
  length (chars (sanitizeFilename name)) = length (chars name) /\
  Forall (fun c => is_safe_char c = true) (chars (sanitizeFilename name)) /\
  Forall (fun c => is_slash c = false) (chars (sanitizeFilename name)) /\
  (sanitizeFilename name = name <-> Forall (fun c => is_safe_char c = true) (chars name)).
Proof.
  unfold sanitizeFilename. rewrite chars_str.
  assert (Hsafe : Forall (fun c => is_safe_char c = true)
                    (map (fun c => if is_safe_char c then c else "_"%char) (chars name))).
  { apply Forall_forall. intros c Hc.
    apply list_elem_of_In, in_map_iff in Hc as (c0 & <- & _).
    apply sanitizeFilename_safe. }
  split; [apply length_map|]. split; [exact Hsafe|]. split.
  - eapply Forall_impl; [exact Hsafe|]. apply is_safe_not_slash.
  - split.
    + intros E. apply (f_equal chars) in E. rewrite chars_str in E.
      rewrite <- E. exact Hsafe.
    + intros Hall. clear Hsafe. rewrite <- (str_chars name) at 2. f_equal.
      induction Hall as [|c l Hc _ IH]; simpl; [reflexivity|].
      rewrite Hc, IH. reflexivity.
Qed.

(** X3: whatever the input, the normalised destination path does not begin
    with a slash and does not end with two slashes: it is empty, or a
    remainder that ends with no slash followed by one slash. *)
Theorem normalizeDestinationPath_shape (destinationPath : option string) :
  (forall c, head (chars (normalizeDestinationPath destinationPath)) = Some c ->
             is_slash c = false) /\
  (normalizeDestinationPath destinationPath = EmptyString \/
   exists remainder,
     chars (normalizeDestinationPath destinationPath) = remainder ++ ["/"%char] /\
     remainder <> [] /\
     (forall c, last remainder = Some c -> is_slash c = false) /\
     (forall c, head remainder = Some c -> is_slash c = false)).
Proof.
  destruct destinationPath as [[|a s]|]; try (split; [discriminate | left; reflexivity]).
  change (normalizeDestinationPath (Some (String a s)))
    with (str (normalizeChars (chars (String a s)))).
  set (l := chars (String a s)).
  destruct (decide (stripSlashes (trim l) = [])) as [E|Hne].
  - rewrite (normalizeChars_nil _ E). split; [discriminate | left; reflexivity].
  - rewrite (normalizeChars_core _ Hne), chars_str. split.
    + intros c Hc. apply (stripSlashes_head (trim l)).
      destruct (stripSlashes (trim l)); [congruence | exact Hc].
    + right. exists (stripSlashes (trim l)).
      split; [reflexivity|]. split; [exact Hne|]. split.
      * apply stripSlashes_last.
      * apply stripSlashes_head.
Qed.

(** ** The metadata header *)

Lemma split_no_sep sep l : no_sep sep l -> split sep l = [l].
Proof.
  induction 1 as [|c l Hc _ IH]; simpl; [reflexivity|].
  rewrite Hc, IH. reflexivity.
Qed.

Lemma split_app_sep sep l r :
  no_sep sep l -> split sep (l ++ sep :: r) = l :: split sep r.
Proof.
  induction 1 as [|c l Hc _ IH]; simpl.
  - rewrite Ascii.eqb_refl. reflexivity.
  - rewrite Hc, IH. reflexivity.
Qed.

Lemma split_joinItems items :
  Forall (no_sep ","%char) items -> items <> [] ->
  split ","%char (joinItems items) = items.
Proof.
  induction 1 as [|item rest Hitem Hrest IH]; [congruence|]. intros _.
  destruct rest as [|item' rest'].
  - simpl. apply split_no_sep, Hitem.
  - change (joinItems (item :: item' :: rest'))
      with (item ++ ","%char :: joinItems (item' :: rest')).
    rewrite (split_app_sep _ _ _ Hitem), IH by discriminate. reflexivity.
Qed.

Lemma is_token_spec s :
  is_token s = true ->
  chars s <> [] /\ no_sep ","%char (chars s) /\ no_sep " "%char (chars s).
Proof.
  unfold is_token. intros H. apply andb_true_iff in H as [Hne Hall].
  apply negb_true_iff, bool_decide_eq_false in Hne. split; [exact Hne|].
  rewrite forallb_forall in Hall.
  split; apply Forall_forall; intros c Hc; apply list_elem_of_In, Hall in Hc;
    apply andb_true_iff in Hc as [H1 H2]; apply negb_true_iff; assumption.
Qed.

Lemma headerItem_no_comma item :
  wellFormedItem item = true -> no_sep ","%char (headerItem item).
Proof.
  destruct item as [k [v|]]; unfold wellFormedItem, headerItem; simpl; intros H.
  - apply andb_true_iff in H as [Hk Hv].
    apply is_token_spec in Hk as (_ & Hk & _). apply is_token_spec in Hv as (_ & Hv & _).
    apply Forall_app. split; [exact Hk|]. constructor; [reflexivity | exact Hv].
  - rewrite andb_true_r in H. apply is_token_spec in H as (_ & Hk & _). exact Hk.
Qed.

Lemma headerItem_nonempty item :
  wellFormedItem item = true -> headerItem item <> [].
Proof.
  destruct item as [k [v|]]; unfold wellFormedItem, headerItem; simpl; intros H.
  - apply andb_true_iff in H as [Hk _]. apply is_token_spec in Hk as (Hk & _).
    destruct (chars k); [congruence | discriminate].
  - rewrite andb_true_r in H. apply is_token_spec in H as (Hk & _). exact Hk.
Qed.

Lemma headerItem_pieces item :
  wellFormedItem item = true ->
  split " "%char (headerItem item)
  = match item.2 with
    | Some value => [chars item.1; chars value]
    | None => [chars item.1]
    end.
Proof.
  destruct item as [k [v|]]; unfold wellFormedItem, headerItem; simpl; intros H.
  - apply andb_true_iff in H as [Hk Hv].
    apply is_token_spec in Hk as (_ & _ & Hk). apply is_token_spec in Hv as (_ & _ & Hv).
    rewrite (split_app_sep _ _ _ Hk), (split_no_sep _ _ Hv). reflexivity.
  - rewrite andb_true_r in H. apply is_token_spec in H as (_ & _ & Hk).
    apply split_no_sep, Hk.
Qed.

Lemma joinItems_nonempty items :
  Forall (fun item => item <> []) items -> items <> [] -> joinItems items <> [].
Proof.
  intros Hall Hne. destruct Hall as [|item rest Hitem _]; [congruence|].
  destruct rest; simpl; [exact Hitem|].
  destruct item; [congruence | discriminate].
Qed.

(** X4: [parseMetadata] on a header of comma-separated items, each a key and
    an encoded value separated by one space or a key alone: the result holds
    the decoded value of every key that has one, a later item replacing an
    earlier one of its key, and nothing for the keys that stand alone.  The
    absent and the empty header give the empty object. *)
Theorem parseMetadata_header (base64 : string -> string)
    (items : list (string * option string)) :
  forallb wellFormedItem items = true ->
  parseMetadata base64 (Some (metadataHeader items))
  = fromEntries (decodedEntries base64 items) /\
  parseMetadata base64 None = ∅ /\
  parseMetadata base64 (Some EmptyString) = ∅.
Proof.
  intros Hwf. split; [|split; reflexivity].
  rewrite forallb_forall in Hwf.
  destruct items as [|item0 rest0] eqn:Hitems; [reflexivity|]. rewrite <- Hitems in *.
  assert (Hne : items <> []) by (subst items; discriminate). clear Hitems.
  unfold parseMetadata, metadataHeader.
  assert (Hjoin : joinItems (map headerItem items) <> []).
  { apply joinItems_nonempty.
    - apply Forall_forall. intros l Hl.
      apply list_elem_of_In, in_map_iff in Hl as (item & <- & Hin).
      apply headerItem_nonempty, Hwf, Hin.
    - destruct items; [congruence | discriminate]. }
  destruct (joinItems (map headerItem items)) as [|c l] eqn:Ej; [congruence|].
  change (truthy (Some (str (c :: l)))) with true. cbn [negb default]. unfold id.
  rewrite chars_str, <- Ej. rewrite split_joinItems.
  2:{ apply Forall_forall. intros l' Hl.
      apply list_elem_of_In, in_map_iff in Hl as (item & <- & Hin).
      apply headerItem_no_comma, Hwf, Hin. }
  2:{ destruct items; [congruence | discriminate]. }
  f_equal. clear Ej Hjoin Hne c l.
  induction items as [|item items IH]; [reflexivity|].
  assert (Hitem : wellFormedItem item = true) by (apply Hwf; left; reflexivity).
  assert (Hrest : forall x, In x items -> wellFormedItem x = true)
    by (intros x Hx; apply Hwf; right; exact Hx).
  specialize (IH Hrest).
  cbn [map]. rewrite (headerItem_pieces item Hitem).
  destruct item as [k [v|]]; cbn [snd fst List.filter] in *.
  - unfold wellFormedItem in Hitem. cbn in Hitem.
    apply andb_true_iff in Hitem as [Hk Hv].
    apply is_token_spec in Hk as (Hk & _). apply is_token_spec in Hv as (Hv & _).
    unfold decodedEntries. cbn [omap list_omap snd fst].
    change ([chars k; chars v] !! 0%nat) with (Some (chars k)).
    change ([chars k; chars v] !! 1%nat) with (Some (chars v)).
    assert (Hpk : present (Some (chars k)) = true)
      by (destruct (chars k); [congruence | reflexivity]).
    assert (Hpv : present (Some (chars v)) = true)
      by (destruct (chars v); [congruence | reflexivity]).
    rewrite Hpk, Hpv. cbn [andb map]. f_equal; [|exact IH].
    change ([chars k; chars v] !! 0%nat) with (Some (chars k)).
    change ([chars k; chars v] !! 1%nat) with (Some (chars v)).
    cbn [default from_option]. unfold id. rewrite !str_chars. reflexivity.
  - unfold decodedEntries. cbn [omap list_omap snd fst].
    change ([chars k] !! 1%nat) with (@None (list ascii)).
    cbn [present]. rewrite andb_false_r. exact IH.
Qed.

Lemma parseMetadata_header_witness :
  parseMetadata (fun s => s)
    (Some "filename bW92aWU=,flag,withFilename b3JpZ2luYWw=,filename eA=="%string)
  !! "filename"%string = Some "eA=="%string.
Proof.
  refine (eq_trans (f_equal (fun m => m !! "filename"%string)
    (proj1 (parseMetadata_header (fun s => s)
       [("filename"%string, Some "bW92aWU="%string);
        ("flag"%string, None);
        ("withFilename"%string, Some "b3JpZ2luYWw="%string);
        ("filename"%string, Some "eA=="%string)] _))) _).
  - vm_compute. reflexivity.
  - vm_compute. reflexivity.
Defined.

(** ** Filename and duplicate strategies *)

Lemma originalStrategy_registerFilename name h env :
  originalStrategy (registerFilenameStrategy name h env) = originalStrategy env.
Proof. reflexivity. Qed.







Section FirstFree.
Context (f : gmap string bytes) (dir base ext : string).


End FirstFree.









(** ** Moving and removing files *)

Section FileFacts.
Context (env : Env) {codec : JsonCodec}.

Lemma moveFile_eq from to jsonPath keepJson s :
  from <> to -> jsonPath <> to +:+ ".json" ->
  moveFile env from to jsonPath keepJson s =
    match fs s !! from with
    | None => (Ok false, s)
    | Some data =>
        if denied env to then (Ok false, s)
        else
          let s1 := {| fs := <[to := data]> (delete from (fs s));
                       assemblies := assemblies s |} in
          match fs s1 !! jsonPath with
          | None => (Ok true, s1)
          | Some raw =>
              if keepJson then
                if denied env (to +:+ ".json") then (Ok false, s1)
                else (Ok true, {| fs := <[to +:+ ".json" := raw]>
                                          (delete jsonPath (fs s1));
                                  assemblies := assemblies s |})
              else (Ok true, {| fs := delete jsonPath (fs s1);
                                assemblies := assemblies s |})
          end
    end.
Proof.
  intros Hft Hjd. unfold moveFile, ensureDir. munfold. cbn beta iota.
  rewrite (moveFileWithFallback_eq env from to s Hft).
  destruct (fs s !! from) as [data|]; [|reflexivity].
  destruct (denied env to); [reflexivity|]. cbn [negb].
  rewrite (handleJsonFile_eq env jsonPath to keepJson _ Hjd). reflexivity.
Qed.

End FileFacts.



(** X10: the fallback of [moveFileWithFallback] is transparent: whether or not
    [rename] fails across volumes, [moveFile] returns the same result and
    leaves the same store. *)
Theorem moveFile_across_volumes (env env' : Env) (from to jsonPath : string)
    (keepJson : bool) (s : Server) :
  (forall p, denied env p = denied env' p) ->
  from <> to -> jsonPath <> to +:+ ".json" ->
  moveFile env from to jsonPath keepJson s = moveFile env' from to jsonPath keepJson s.
Proof.
  intros Hdenied Hft Hjd.
  rewrite (moveFile_eq env from to jsonPath keepJson s Hft Hjd).
  rewrite (moveFile_eq env' from to jsonPath keepJson s Hft Hjd).
  rewrite !Hdenied. reflexivity.
Qed.

Lemma moveFile_across_volumes_witness :
  exdev twoVolumesEnv "staging/u1" "uploads/u1" = true /\
  moveFile twoVolumesEnv "staging/u1" "uploads/u1" "staging/u1.json" false stagedU1
  = moveFile sameVolumeEnv "staging/u1" "uploads/u1" "staging/u1.json" false stagedU1.
Proof.
  split; [reflexivity|].
  apply (moveFile_across_volumes twoVolumesEnv sameVolumeEnv);
    [reflexivity | discriminate | discriminate].
Defined.

(** X11: [cleanupPartFiles] never throws; afterwards neither the payload nor
    the sidecar of the part exists, every other file and the assemblies are
    as before, and a second call changes nothing. *)
Theorem cleanupPartFiles_removes (env : Env) (partId : string) (s : Server) :
  exists s',
    cleanupPartFiles env partId s = (Ok tt, s') /\
    fs s' !! staged env partId = None /\
    fs s' !! staged env (partId +:+ ".json") = None /\
    (forall p, p <> staged env partId -> p <> staged env (partId +:+ ".json") ->
               fs s' !! p = fs s !! p) /\
    assemblies s' = assemblies s /\
    cleanupPartFiles env partId s' = (Ok tt, s').
Proof.
  eexists. split; [apply cleanupPartFiles_eq|]. cbn [fs assemblies].
  split.
  { destruct (decide (staged env partId = staged env (partId +:+ ".json"))) as [E|Hne].
    - rewrite <- E. apply lookup_delete_eq.
    - rewrite lookup_delete_ne by congruence. apply lookup_delete_eq. }
  split; [apply lookup_delete_eq|].
  split.
  { intros p H1 H2. rewrite !lookup_delete_ne by congruence. reflexivity. }
  split; [reflexivity|].
  rewrite cleanupPartFiles_eq. cbn [fs assemblies]. do 2 f_equal.
  apply map_eq. intros p.
  destruct (decide (p = staged env (partId +:+ ".json"))) as [->|H2].
  { rewrite !lookup_delete_eq. reflexivity. }
  rewrite !(lookup_delete_ne _ (staged env (partId +:+ ".json"))) by congruence.
  destruct (decide (p = staged env partId)) as [->|H1].
  { rewrite !lookup_delete_eq. reflexivity. }
  rewrite !lookup_delete_ne by congruence. reflexivity.
Qed.

(** ** The endpoint: what a request may and may not change *)

(** X12: HEAD never changes the server and never throws.  It answers 400
    exactly when the id is missing, 404 exactly when the sidecar file is
    missing, 200 exactly when the sidecar parses and holds an offset and a
    size, and 500 otherwise; no response has a body. *)
Theorem HEAD_readonly (env : Env) (codec : JsonCodec) (req : Request) (s : Server) :
  exists r,
    HEAD env req s = (Ok r, s) /\ body r = NoBody /\
    (status r = 400 <-> truthy (param_id req) = false) /\
    (status r = 404 <->
       truthy (param_id req) = true /\
       fs s !! staged env (default EmptyString (param_id req) +:+ ".json") = None) /\
    (status r = 200 <->
       truthy (param_id req) = true /\
       exists info o n,
         sidecar env s (default EmptyString (param_id req)) = Some info /\
         ui_offset info = Some o /\ ui_size info = Some n) /\
    (status r = 200 \/ status r = 400 \/ status r = 404 \/ status r = 500).
Proof.
  unfold HEAD, sidecar, existsSync, readFileSync. munfold.
  destruct (truthy (param_id req)) eqn:Hid; cbn [negb].
  2:{ eexists. split; [reflexivity|]. cbn.
      repeat split; try tauto; try discriminate; try (intros [? _]; discriminate). }
  cbn [fst snd].
  destruct (fs s !! staged env (default EmptyString (param_id req) +:+ ".json"))
    as [raw|] eqn:Hraw.
  2:{ rewrite bool_decide_eq_false_2 by (intros [? ?]; discriminate). cbn.
      eexists. split; [reflexivity|]. cbn.
      repeat split; try tauto; try discriminate.
      intros (_ & info & o & n & H & _). discriminate. }
  rewrite bool_decide_eq_true_2 by eauto. cbn [negb]. rewrite Hraw. cbn [mbind option_bind].
  destruct (parse raw) as [info|] eqn:Hparse.
  2:{ eexists. split; [reflexivity|]. cbn.
      repeat split; try tauto; try discriminate; try (intros [_ ?]; discriminate).
      intros (_ & info & o & n & H & _). discriminate. }
  destruct (ui_offset info) as [o|] eqn:Ho.
  2:{ eexists. split; [reflexivity|]. cbn.
      repeat split; try tauto; try discriminate; try (intros [_ ?]; discriminate).
      intros (_ & info' & o & n & H & Ho' & _). congruence. }
  destruct (ui_size info) as [n|] eqn:Hn.
  2:{ eexists. split; [reflexivity|]. cbn.
      repeat split; try tauto; try discriminate; try (intros [_ ?]; discriminate).
      intros (_ & info' & o' & n & H & _ & Hn'). congruence. }
  eexists. split; [reflexivity|]. cbn.
  repeat split; try tauto; try discriminate; try (intros [_ ?]; discriminate).
  exists info, o, n. auto.
Qed.

(** X13: PATCH never throws and answers 204, 400, 404, 409 or 500; a request
    answered 400, 404 or 409 has changed neither a file nor the assemblies. *)
Theorem PATCH_rejection_changes_nothing (env : Env) (codec : JsonCodec)
    (req : Request) (s : Server) :
  exists r s',
    PATCH env req s = (Ok r, s') /\
    (status r = 204 \/ status r = 500 \/
     ((status r = 400 \/ status r = 404 \/ status r = 409) /\ s' = s)).
Proof.
  unfold PATCH, existsSync, readFileSync, appendFileSync, writeFileSync. munfold.
  destruct (truthy (param_id req)); cbn [negb]; [|eauto 10].
  destruct (truthy (upload_offset req)); cbn [negb]; [|eauto 10].
  destruct (bool_decide (content_type req = Some "application/offset+octet-stream"%string));
    cbn [negb]; [|eauto 10].
  cbn [fst snd].
  destruct (fs s !! staged env (default EmptyString (param_id req) +:+ ".json"))
    as [raw|] eqn:Hraw.
  2:{ rewrite bool_decide_eq_false_2 by (intros [? ?]; discriminate). cbn. eauto 10. }
  rewrite bool_decide_eq_true_2 by eauto. cbn [negb]. rewrite Hraw.
  destruct (parse raw) as [info|]; [|cbn; eauto 10].
  destruct (strictNe _ _); [cbn; eauto 10|].
  destruct (denied env (staged env (default EmptyString (param_id req))));
    [cbn; eauto 10|].
  cbn [fst snd fs assemblies].
  destruct (denied env (staged env (default EmptyString (param_id req) +:+ ".json")));
    [cbn; eauto 10|].
  cbn [fst snd fs assemblies ui_size].
  destruct (reached _ _); [|cbn; eauto 10].
  match goal with |- context [handleUploadComplete ?a ?b ?c ?d] =>
    destruct (handleUploadComplete a b c d) as [[complete|e] s2] end;
    cbn; eauto 10.
Qed.

(** X14: POST never throws and answers 201, 400, 409 or 500; it answers 400
    exactly when [Upload-Length] is missing or empty, and a request answered
    400 or 409 has changed nothing. *)
Theorem POST_rejection_changes_nothing (env : Env) (codec : JsonCodec)
    (req : Request) (uuid now : string) (s : Server) :
  exists r s',
    POST env req uuid now s = (Ok r, s') /\
    (status r = 400 <-> truthy (upload_length req) = false) /\
    (status r = 201 \/ status r = 500 \/
     ((status r = 400 \/ status r = 409) /\ s' = s)).
Proof.
  unfold POST, checkDuplicateFile, existsSync, writeFileSync. munfold.
  destruct (truthy (upload_length req)); cbn [negb].
  2:{ do 2 eexists. split; [reflexivity|]. cbn. split; [tauto|]. auto 10. }
  assert (Hno : forall r : Response, status r <> 400 -> status r = 400 <-> true = false).
  { intros r Hr. split; [contradiction | discriminate]. }
  destruct (_ && _ && _); cbn [fst snd].
  - destruct (bool_decide _).
    + do 2 eexists. split; [reflexivity|]. split; [apply Hno; discriminate|]. cbn. auto 10.
    + destruct (denied env (staged env uuid)).
      { do 2 eexists. split; [reflexivity|]. split; [apply Hno; discriminate|].
        cbn. auto 10. }
      cbn [fst snd fs assemblies].
      destruct (denied env (staged env (uuid +:+ ".json")));
        do 2 eexists; (split; [reflexivity|]); (split; [apply Hno; discriminate|]);
        cbn; auto 10.
  - destruct (denied env (staged env uuid)).
    { do 2 eexists. split; [reflexivity|]. split; [apply Hno; discriminate|].
      cbn. auto 10. }
    cbn [fst snd fs assemblies].
    destruct (denied env (staged env (uuid +:+ ".json")));
      do 2 eexists; (split; [reflexivity|]); (split; [apply Hno; discriminate|]);
      cbn; auto 10.
Qed.

Section CreateEffect.
Context (env : Env) {codec : JsonCodec}.


End CreateEffect.



(** ** A solo upload from the first chunk to the destination *)

Section SoloFacts.
Context (env : Env) {codec : JsonCodec}.

Lemma advanced_advanced info o a b :
  ui_offset info = Some o ->
  advanced (advanced info a) b = advanced info (a + b).
Proof.
  intros Ho. unfold advanced. cbn. rewrite Ho. cbn. do 2 f_equal. lia.
Qed.

Lemma advanced_zero info o : ui_offset info = Some o -> advanced info 0 = info.
Proof.
  intros Ho. destruct info. unfold advanced. cbn in *. rewrite Ho. cbn.
  rewrite Z.add_0_r. reflexivity.
Qed.

Lemma chunks_content uploadId chunks s s' :
  uploadId <> EmptyString ->
  chunksAccepted env uploadId chunks s s' ->
  forall info o,
    sidecar env s uploadId = Some info ->
    ui_offset info = Some o ->
    sidecar env s' uploadId
      = Some (advanced info (Z.of_nat (length (concat chunks)))) /\
    default [] (payload env s' uploadId)
      = default [] (payload env s uploadId) ++ concat chunks /\
    (forall p, p <> staged env uploadId -> p <> staged env (uploadId +:+ ".json") ->
               fs s' !! p = fs s !! p) /\
    assemblies s' = assemblies s.
Proof.
  intros Hne Hrun.
  induction Hrun as [s|req info0 o0 chunks s s' Hwf Hid Hside0 Ho0 Hp Hd1 Hd2 Hr Hrun IH];
    intros info o Hside Ho.
  - change (Z.of_nat (length (concat (@nil bytes)))) with 0.
    cbn [concat]. rewrite (advanced_zero info o Ho), app_nil_r. auto.
  - rewrite Hside in Hside0. injection Hside0 as <-.
    rewrite Ho in Ho0. injection Ho0 as <-.
    subst uploadId.
    pose proof (PATCH_accepted env req s info o Hwf Hside Ho Hp Hd1 Hd2) as HP.
    cbv zeta in HP. rewrite Hr in HP.
    rewrite HP in Hrun, IH. cbn [snd] in Hrun, IH.
    destruct (IH (advanced info (Z.of_nat (length (req_body req))))
                 (o + Z.of_nat (length (req_body req))))
      as (H1 & H5 & H6 & H7).
    + apply sidecar_appended.
    + cbn. rewrite Ho. reflexivity.
    + split.
      { rewrite H1. f_equal. rewrite (advanced_advanced info o _ _ Ho).
        f_equal. cbn [concat]. rewrite length_app. lia. }
      split.
      { rewrite H5. rewrite (payload_appended env _ _ _ _ Hne).
        cbn [default concat]. unfold payload. rewrite app_assoc. reflexivity. }
      split; [|exact H7].
      intros p Hp1 Hp2. rewrite (H6 p Hp1 Hp2). unfold appended. cbn [fs].
      map_look. reflexivity.
Qed.



End SoloFacts.


(** X16: while the chunks of an upload are accepted one after the other, the
    payload file grows by exactly their bytes in order, and a HEAD sent after
    them reports the stored offset advanced by their total length together
    with the declared length: a client that resumes from that offset
    continues where the payload ends. *)
Theorem chunked_upload_resumable (env : Env) (codec : JsonCodec)
    (uploadId : string) (chunks : list bytes) (s s' : Server)
    (info : UploadInfo) (o n : Z) :
  uploadId <> EmptyString ->
  chunksAccepted env uploadId chunks s s' ->
  sidecar env s uploadId = Some info ->
  ui_offset info = Some o ->
  ui_size info = Some n ->
  default [] (payload env s' uploadId)
    = default [] (payload env s uploadId) ++ concat chunks /\
  (payloadLength env s uploadId = o ->
   payloadLength env s' uploadId = o + Z.of_nat (length (concat chunks))) /\
  forall probe,
    param_id probe = Some uploadId ->
    HEAD env probe s' =
      (Ok {| status := 200;
             headers := [("Tus-Resumable", "1.0.0");
                         ("Upload-Offset", pretty (o + Z.of_nat (length (concat chunks))));
                         ("Upload-Length", pretty n);
                         ("Cache-Control", "no-store")]%string;
             body := NoBody |}, s').
Proof.
  intros Hne Hrun Hside Ho Hn.
  destruct (chunks_content env uploadId chunks s s' Hne Hrun info o Hside Ho)
    as (H1 & H2 & _ & _).
  split; [exact H2|]. split.
  - unfold payloadLength. rewrite H2, length_app. lia.
  - intros probe Hprobe.
    apply (HEAD_reports env probe s'
             (advanced info (Z.of_nat (length (concat chunks))))).
    + rewrite Hprobe. destruct uploadId; [congruence | reflexivity].
    + rewrite Hprobe. exact H1.
    + cbn. rewrite Ho. reflexivity.
    + exact Hn.
Qed.


Lemma reportChunk1_accepted :
  chunksAccepted plainEnv (codec := exampleCodec) "u2" [[Byte.x25]]
    reportCreated reportChunk1.
Proof.
  apply (chunksAccepted_cons plainEnv "u2" (patchRequest "u2" "0" [Byte.x25])
           reportInfo 0 [] reportCreated reportChunk1).
  - repeat split; reflexivity.
  - reflexivity.
  - vm_compute. reflexivity.
  - reflexivity.
  - vm_compute. reflexivity.
  - reflexivity.
  - reflexivity.
  - vm_compute. reflexivity.
  - apply chunksAccepted_nil.
Defined.

Lemma chunked_upload_resumable_witness :
  @HEAD plainEnv exampleCodec (headRequest "u2") reportChunk1 =
    (Ok {| status := 200;
           headers := [("Tus-Resumable", "1.0.0"); ("Upload-Offset", "1");
                       ("Upload-Length", "3"); ("Cache-Control", "no-store")]%string;
           body := NoBody |}, reportChunk1).
Proof.
  refine (proj2 (proj2 (chunked_upload_resumable plainEnv exampleCodec "u2" [[Byte.x25]]
            reportCreated reportChunk1 reportInfo 0 3 _ reportChunk1_accepted _ _ _))
            (headRequest "u2") eq_refl).
  - discriminate.
  - vm_compute. reflexivity.
  - reflexivity.
  - reflexivity.
Defined.


(** ** The client: completion of a multipart upload *)

Lemma onPartSettled_failed n t events :
  hasError t = true -> foldl (onPartSettled n) t events = t.
Proof.
  intros Ht. induction events as [|e events IH]; [reflexivity|].
  cbn [foldl]. destruct e; unfold onPartSettled; rewrite Ht; exact IH.
Qed.

Lemma trackParts_from n events :
  forall c,
    c + Z.of_nat (length events) <= n ->
    (events = [] \/ c < n) ->
    foldl (onPartSettled n)
      {| completedParts := c; hasError := false;
         promise := if c =? n then resolved else unsettled;
         markedCompleted := c =? n |} events
    = match firstError events with
      | Some reason =>
          {| completedParts := c + fulfilledBefore events; hasError := true;
             promise := rejectedWith reason; markedCompleted := false |}
      | None =>
          {| completedParts := c + Z.of_nat (length events); hasError := false;
             promise := if c + Z.of_nat (length events) =? n then resolved else unsettled;
             markedCompleted := c + Z.of_nat (length events) =? n |}
      end.
Proof.
  induction events as [|e events IH]; intros c Hlen Hc.
  - cbn. rewrite Z.add_0_r. reflexivity.
  - destruct Hc as [Hc|Hc]; [discriminate|].
    cbn [length] in Hlen. cbn [foldl firstError fulfilledBefore].
    assert (Hcn : (c =? n) = false) by (apply Z.eqb_neq; lia).
    destruct e as [|reason].
    + unfold onPartSettled at 2. cbn [hasError completedParts promise markedCompleted].
      rewrite Hcn. cbn [settle].
      assert (Hstate :
        (if c + 1 =? n
         then {| completedParts := c + 1; hasError := false; promise := resolved;
                 markedCompleted := true |}
         else {| completedParts := c + 1; hasError := false; promise := unsettled;
                 markedCompleted := false |})
        = {| completedParts := c + 1; hasError := false;
             promise := if c + 1 =? n then resolved else unsettled;
             markedCompleted := c + 1 =? n |}).
      { destruct (c + 1 =? n); reflexivity. }
      rewrite Hstate, (IH (c + 1)).
      * replace (c + 1 + Z.of_nat (length events))
          with (c + Z.of_nat (S (length events))) by lia.
        replace (c + 1 + fulfilledBefore events)
          with (c + (1 + fulfilledBefore events)) by lia.
        reflexivity.
      * lia.
      * destruct events; [left; reflexivity | right; cbn [length] in Hlen; lia].
    + unfold onPartSettled at 2. cbn [hasError completedParts promise markedCompleted negb].
      rewrite Hcn. cbn [settle].
      rewrite onPartSettled_failed by reflexivity.
      rewrite Z.add_0_r. reflexivity.
Qed.

Lemma firstError_none events :
  firstError events = None <-> Forall (fun e => e = fulfilled) events.
Proof.
  induction events as [|[|reason] events IH]; cbn.
  - split; [constructor | reflexivity].
  - rewrite IH. split; [intros H; constructor; [reflexivity | exact H]|].
    intros H. inversion H; assumption.
  - split; [discriminate|]. intros H. inversion H; discriminate.
Qed.

(** X18: the promise of [uploadFileMultipart] behaves like a fail-fast
    barrier over the parts.  While parts settle, at most one per part, the
    promise resolves exactly when all [totalParts] parts have succeeded, it is
    rejected with the reason of the first part that failed whatever happens
    to the later ones, and the file is marked completed exactly when the
    promise resolves. *)
Theorem multipart_promise_settles (totalParts : Z) (events : list Settlement) :
  1 <= totalParts ->
  Z.of_nat (length events) <= totalParts ->
  let t := trackParts totalParts events in
  (promise t = resolved <->
     Z.of_nat (length events) = totalParts /\ Forall (fun e => e = fulfilled) events) /\
  (forall reason, promise t = rejectedWith reason <-> firstError events = Some reason) /\
  (promise t = unsettled <->
     Z.of_nat (length events) < totalParts /\ Forall (fun e => e = fulfilled) events) /\
  (markedCompleted t = true <-> promise t = resolved) /\
  (hasError t = true <-> is_Some (firstError events)).
Proof.
  intros Hn Hlen t. subst t. unfold trackParts, newTracker.
  pose proof (trackParts_from totalParts events 0) as Hclosed.
  assert (H0 : (0 =? totalParts) = false) by (apply Z.eqb_neq; lia).
  rewrite H0 in Hclosed. rewrite Hclosed by (lia || (right; lia)). clear Hclosed.
  rewrite <- firstError_none.
  destruct (firstError events) as [reason|] eqn:Hfirst; cbn.
  - split; [split; [discriminate | intros [_ ?]; discriminate]|].
    split; [intros r; split; congruence|].
    split; [split; [discriminate | intros [_ ?]; discriminate]|].
    split; [split; discriminate|].
    split; [eauto | reflexivity].
  - assert (Hnone : is_Some (@None string) -> false = true) by (intros [? ?]; discriminate).
    rewrite !Z.add_0_l.
    destruct (Z.eqb_spec (Z.of_nat (length events)) totalParts) as [E|Hne].
    + split; [split; auto|].
      split; [intros r; split; discriminate|].
      split; [split; [discriminate | intros [? _]; lia]|].
      split; [split; reflexivity|].
      split; [discriminate | exact Hnone].
    + split; [split; [discriminate | intros [? _]; contradiction]|].
      split; [intros r; split; discriminate|].
      split; [split; [intros _; split; [lia | reflexivity] | reflexivity]|].
      split; [split; discriminate|].
      split; [discriminate | exact Hnone].
Qed.

Lemma multipart_promise_settles_witness :
  promise (trackParts 3 [fulfilled; rejected "offline"; rejected "timeout"])
  = rejectedWith "offline".
Proof.
  refine (proj2 (proj1 (proj2 (multipart_promise_settles 3
            [fulfilled; rejected "offline"; rejected "timeout"] _ _)) "offline"%string) _).
  - lia.
  - cbn. lia.
  - reflexivity.
Defined.

(** ** The client: the batches of the driver *)

Lemma elem_of_sublist_singleton {A} (x : A) (l : list A) : x ∈ l -> sublist [x] l.
Proof.
  induction l as [|y l IH]; intros Hin; [inversion Hin|].
  apply elem_of_cons in Hin as [->|Hin].
  - apply sublist_skip, sublist_nil_l.
  - apply sublist_cons, IH, Hin.
Qed.

Lemma remainingFiles_parts_le queue :
  Forall (fun f => 1 <= fw_parts f <= 8) (remainingFiles queue).
Proof.
  unfold remainingFiles. apply Forall_map, Forall_forall. intros f _. cbn [fw_parts].
  unfold getPartCount.
  destruct (Z.leb_spec (qf_size f) (512 * MB)); [lia|].
  destruct (Z.gtb_spec (qf_size f) (4096 * MB)); [lia|].
  pose proof (ceil_div_spec (qf_size f) (512 * MB) ltac:(unfold MB; lia)).
  unfold MB in *. nia.
Qed.

(** X19: with at least eight streams, the budget of the shipped
    configuration, the driver never needs its fallback.  Whenever a file is
    pending the knapsack search returns a non-empty batch of pending files
    within the budget, whose summed part count is at least the part count of
    every single pending file, and that batch is the one started. *)
Theorem driver_batch_nonempty (queue : list QueuedFile) (maxStreamCount : Z) :
  8 <= maxStreamCount ->
  remainingFiles queue <> [] ->
  let batch := findOptimalBatch (remainingFiles queue) maxStreamCount in
  batch <> [] /\
  selectBatch (remainingFiles queue) maxStreamCount = Some batch /\
  sublist batch (remainingFiles queue) /\
  1 <= totalStreams batch <= maxStreamCount /\
  forall file, file ∈ remainingFiles queue -> fw_parts file <= totalStreams batch.
Proof.
  intros Hmax Hpending batch.
  pose proof (remainingFiles_parts_le queue) as Hparts.
  assert (Hpos : Forall (fun f => 0 <= fw_parts f) (remainingFiles queue)).
  { eapply Forall_impl; [exact Hparts|]. cbn. intros; lia. }
  destruct (findOptimalBatch_searched (remainingFiles queue) maxStreamCount
              ltac:(lia) Hpos) as (Hsub & Hfit & Hopt).
  fold batch in Hsub, Hfit, Hopt.
  assert (Hsingle : forall file, file ∈ remainingFiles queue ->
                                 fw_parts file <= sumParts batch).
  { intros file Hin.
    rewrite Forall_forall in Hparts. specialize (Hparts file Hin).
    specialize (Hopt [file] (elem_of_sublist_singleton _ _ Hin)).
    cbn in Hopt. lia. }
  assert (Hone : 1 <= sumParts batch).
  { destruct (remainingFiles queue) as [|first others] eqn:Hrem; [congruence|].
    rewrite Forall_forall in Hparts.
    specialize (Hparts first ltac:(left)). specialize (Hsingle first ltac:(left)). lia. }
  assert (Hne : batch <> []).
  { intros E. rewrite E in Hone. cbn in Hone. lia. }
  split; [exact Hne|]. split.
  - unfold selectBatch. fold batch.
    destruct (remainingFiles queue) as [|first others]; [congruence|].
    fold batch. destruct batch; [congruence | reflexivity].
  - rewrite totalStreams_sumParts. split; [exact Hsub|]. split; [lia|]. exact Hsingle.
Qed.

Lemma driver_batch_nonempty_witness :
  map fw_id (findOptimalBatch (remainingFiles mixedQueue) 8) = ["f2"; "f3"]%string /\
  selectBatch (remainingFiles mixedQueue) 8
  = Some (findOptimalBatch (remainingFiles mixedQueue) 8).
Proof.
  split; [vm_compute; reflexivity|].
  refine (proj1 (proj2 (driver_batch_nonempty mixedQueue 8 _ _))).
  - lia.
  - vm_compute. discriminate.
Defined.

(** ** The client: the sessions of a multipart upload *)

Lemma slice_length (file : bytes) (start p : Z) :
  0 <= p -> 0 <= start ->
  Z.of_nat (length (slice file start (Z.min (start + p) (Z.of_nat (length file))))) <= p.
Proof.
  intros Hp Hstart. unfold slice. rewrite length_take.
  destruct (Z.ltb_spec start 0); [lia|].
  destruct (Z.ltb_spec (Z.min (start + p) (Z.of_nat (length file))) 0); lia.
Qed.

(** X20: [uploadFileMultipart] starts [getPartCount(size)] sessions whose
    blobs, in index order, are disjoint consecutive slices that make up the
    file, none longer than the part size; the sessions carry the part numbers
    1, 2, ... in that order, and each announces the group, the number of
    parts and the size of the file in a form [parseInt] reads back. *)
Theorem uploadFileMultipart_partition (cfg : ClientConfig) (file : ClientFile)
    (group : string) :
  let size := Z.of_nat (length (cf_bytes file)) in
  let n := getPartCount size in
  let sessions := uploadFileMultipart cfg file group in
  Z.of_nat (length sessions) = n /\
  concat (map pu_blob sessions) = cf_bytes file /\
  map (fun part => parseInt (default EmptyString (partIndex (pu_metadata part)))) sessions
    = map Some (seqZ 1 n) /\
  Forall (fun part =>
            multipartId (pu_metadata part) = Some group /\
            parseInt (default EmptyString (totalParts (pu_metadata part))) = Some n /\
            parseInt (default EmptyString (originalFileSize (pu_metadata part)))
              = Some size /\
            Z.of_nat (length (pu_blob part)) <= ceil_div size n)
         sessions.
Proof.
  intros size n sessions.
  pose proof (getPartCount_pos size) as Hn. fold n in Hn.
  pose proof (ceil_div_spec size n ltac:(lia)) as Hceil.
  assert (Hp : 0 <= ceil_div size n) by (subst size; nia).
  split.
  { subst sessions. unfold uploadFileMultipart. cbv zeta.
    rewrite length_map, length_seqZ. fold size n. lia. }
  split; [apply uploadFileMultipart_blobs|].
  subst sessions. unfold uploadFileMultipart. cbv zeta. fold size n. split.
  - rewrite map_map. cbn [pu_metadata uploadPart partIndex default]. unfold id.
    change (seqZ 1 n) with (seqZ (1 + 0) n). rewrite <- (fmap_add_seqZ 1 0 n).
    change (map Some (Z.add 1 <$> seqZ 0 n)) with (map Some (map (Z.add 1) (seqZ 0 n))).
    rewrite map_map. apply map_ext_in. intros i Hi.
    apply list_elem_of_In, elem_of_seqZ in Hi.
    rewrite parseInt_pretty by lia. f_equal. lia.
  - apply Forall_forall. intros part Hin.
    apply list_elem_of_In, in_map_iff in Hin as (i & <- & Hi).
    apply list_elem_of_In, elem_of_seqZ in Hi.
    cbn [pu_metadata pu_blob uploadPart multipartId totalParts originalFileSize default].
    unfold id.
    split; [reflexivity|].
    split; [apply parseInt_pretty; lia|].
    split; [apply parseInt_pretty; subst size; lia|].
    apply slice_length; [exact Hp | nia].
Qed.

Lemma pretty_nonempty (z : Z) : 0 <= z -> truthy (Some (pretty z)) = true.
Proof.
  intros Hz. destruct (pretty z) eqn:E; [|reflexivity].
  pose proof (parseInt_pretty z Hz) as H. rewrite E in H. discriminate.
Qed.

(** X27: the client and the server agree on what is a part.  The sessions the
    driver starts for a file carry all of its bytes in order; for a file of
    one part the single session is handled by the server as a solo upload,
    and for a larger file every session is handled as a part of the group. *)
Theorem client_sessions_classified (cfg : ClientConfig) (file : ClientFile)
    (group : string) :
  group <> EmptyString ->
  let n := getPartCount (Z.of_nat (length (cf_bytes file))) in
  concat (map pu_blob (uploadSessions cfg file group)) = cf_bytes file /\
  Z.of_nat (length (uploadSessions cfg file group)) = n /\
  Forall (fun part => isMultipartPart (pu_metadata part) = negb (n =? 1))
         (uploadSessions cfg file group).
Proof.
  intros Hgroup n. unfold uploadSessions. fold n.
  pose proof (getPartCount_pos (Z.of_nat (length (cf_bytes file)))) as Hn. fold n in Hn.
  destruct (Z.eqb_spec n 1) as [E|Hne].
  - cbn [map concat pu_blob uploadFileComplete length]. rewrite app_nil_r.
    split; [reflexivity|]. split; [lia|].
    constructor; [reflexivity | constructor].
  - split; [apply uploadFileMultipart_blobs|].
    split.
    { unfold uploadFileMultipart. cbv zeta. rewrite length_map, length_seqZ.
      fold n. lia. }
    apply Forall_forall. intros part Hin.
    unfold uploadFileMultipart in Hin. cbv zeta in Hin. fold n in Hin.
    apply list_elem_of_In, in_map_iff in Hin as (i & <- & Hi).
    apply list_elem_of_In, elem_of_seqZ in Hi.
    unfold isMultipartPart, isMultipartUpload.
    cbn [pu_metadata uploadPart multipartId partIndex totalParts].
    rewrite !pretty_nonempty by lia.
    destruct group; [congruence|]. cbn [truthy andb negb].
    apply negb_true_iff, bool_decide_eq_false. intros [= E].
    apply (f_equal parseInt) in E. rewrite parseInt_pretty in E by lia.
    change (parseInt "1") with (Some 1) in E. congruence.
Qed.

Lemma client_sessions_classified_witness :
  Forall (fun part => isMultipartPart (pu_metadata part) = false)
         (uploadSessions originalConfig abcFile "G").
Proof.
  refine (proj2 (proj2 (client_sessions_classified originalConfig abcFile "G" _))).
  discriminate.
Defined.

(** ** The multipart assembler: what a completion may touch *)

Section AssembliesFrame.
Context (env : Env) {codec : JsonCodec}.

Lemma moveFileWithFallback_assemblies from to s :
  assemblies (snd (moveFileWithFallback env from to s)) = assemblies s.
Proof.
  unfold moveFileWithFallback, renameSync, copyFileSync, unlinkSync. munfold. cbn.
  destruct (fs s !! from) as [data|]; cbn; [|reflexivity].
  destruct (denied env to); cbn; [reflexivity|].
  destruct (exdev env from to); cbn; [|reflexivity].
  destruct (fs s !! from) as [data'|]; cbn; [|reflexivity].
  destruct (<[to:=data']> (fs s) !! from); reflexivity.
Qed.

Lemma handleJsonFile_assemblies jsonPath destination keepJson s :
  assemblies (snd (handleJsonFile env jsonPath destination keepJson s)) = assemblies s.
Proof.
  unfold handleJsonFile, existsSync. munfold. cbn.
  destruct (bool_decide (is_Some (fs s !! jsonPath))); cbn; [|reflexivity].
  destruct keepJson.
  - pose proof (moveFileWithFallback_assemblies jsonPath (destination +:+ ".json") s) as H.
    destruct (moveFileWithFallback env jsonPath (destination +:+ ".json") s) as [[b|e] s'];
      exact H.
  - unfold unlinkSync. munfold. cbn. destruct (fs s !! jsonPath); reflexivity.
Qed.

Lemma moveFile_assemblies from to jsonPath keepJson s :
  assemblies (snd (moveFile env from to jsonPath keepJson s)) = assemblies s.
Proof.
  unfold moveFile, ensureDir. munfold. cbn beta iota.
  pose proof (moveFileWithFallback_assemblies from to s) as H.
  destruct (moveFileWithFallback env from to s) as [[[]|e] s']; cbn in *;
    try exact H.
  rewrite handleJsonFile_assemblies. exact H.
Qed.

Lemma assembleFile_assemblies group assembly s :
  assemblies (snd (assembleFile env group assembly s)) = assemblies s.
Proof.
  unfold assembleFile.
  destruct (parts assembly !! Some 1) as [firstPartId|]; [|reflexivity].
  unfold try_catch, mbind, M_bind, defined, mret, M_ret, throw.
  destruct (appendParts env assembly (staged env firstPartId)
              (partIndices (asm_totalParts assembly)) s) as [[[]|e] s1] eqn:Hloop;
    destruct (appendParts_frame env assembly _ _ _ _ _ Hloop) as (Hasm & _);
    [|exact Hasm].
  rewrite updateAssembledMetadata_eq.
  rewrite processAssembledFile_eq.
  match goal with |- context [moveFile ?e ?a ?b ?c ?d ?s] =>
    pose proof (moveFile_assemblies a b c d s) as Hmove;
    destruct (moveFile e a b c d s) as [[moved|e'] s2] end;
    cbn [snd] in *; rewrite Hmove;
    destruct (fs s1 !! staged env (firstPartId +:+ ".json") ≫= parse);
    try destruct (denied env _); exact Hasm.
Qed.

End AssembliesFrame.

(** X21: a part completion touches no group but its own.  The entry of every
    other group is as before, whether the completion waits, reassembles the
    file or fails; and a completion that does not complete its group returns
    [false] without touching a file. *)
Theorem part_completion_isolated (env : Env) (codec : JsonCodec)
    (uploadId : string) (meta : UploadMetadata) (s : Server) (other : string) :
  other <> default EmptyString (multipartId meta) ->
  assemblies (snd (handlePartCompletion env uploadId meta s)) !! other
    = assemblies s !! other /\
  (allPartsReceived (recordedAssembly s uploadId meta) = false ->
   fst (handlePartCompletion env uploadId meta s) = Ok false /\
   fs (snd (handlePartCompletion env uploadId meta s)) = fs s).
Proof.
  intros Hother. rewrite handlePartCompletion_unfold.
  destruct (allPartsReceived (recordedAssembly s uploadId meta)).
  - split; [|discriminate].
    pose proof (assembleFile_assemblies env (default EmptyString (multipartId meta))
                  (recordedAssembly s uploadId meta) (recorded s uploadId meta)) as Hasm.
    destruct (assembleFile _ _ _ _) as [[[]|e] s']; cbn [snd] in *;
      unfold forgotten; cbn [assemblies]; rewrite Hasm; unfold recorded; cbn [assemblies];
      rewrite lookup_delete_ne by congruence; apply lookup_insert_ne; congruence.
  - cbn [snd fst]. unfold recorded. cbn [assemblies fs].
    split; [apply lookup_insert_ne; congruence | auto].
Qed.

Lemma part_completion_isolated_witness :
  assemblies (snd (@handlePartCompletion plainEnv exampleCodec "p9"
                     {| filename := Some "other.bin"; filetype := None;
                        multipartId := Some "N"; partIndex := Some "1";
                        totalParts := Some "2"; originalFileSize := Some "4";
                        withFilename := None; onDuplicate := None;
                        destinationPath := None |}%string afterPart2))
    !! "M"%string
  = assemblies afterPart2 !! "M"%string.
Proof.
  refine (proj1 (part_completion_isolated plainEnv exampleCodec "p9" _ afterPart2 "M" _)).
  discriminate.
Defined.

(** X22: for a group the manager already knows, a completion only records the
    staging id under its part index: the announced [totalParts] and the
    metadata stay those of the first part that completed.  When the index is
    already recorded, the new id replaces the old one and the number of
    received parts does not grow, so a group that was waiting keeps
    waiting. *)
Theorem known_group_records_part (env : Env) (codec : JsonCodec)
    (uploadId : string) (meta : UploadMetadata) (s : Server)
    (assembly : MultipartAssembly) :
  assemblies s !! default EmptyString (multipartId meta) = Some assembly ->
  let key := parseInt (default EmptyString (partIndex meta)) in
  let assembly' := recordedAssembly s uploadId meta in
  parts assembly' = <[key := uploadId]> (parts assembly) /\
  asm_totalParts assembly' = asm_totalParts assembly /\
  asm_metadata assembly' = asm_metadata assembly /\
  (is_Some (parts assembly !! key) ->
   size (parts assembly') = size (parts assembly) /\
   (allPartsReceived assembly = false ->
    handlePartCompletion env uploadId meta s = (Ok false, recorded s uploadId meta))).
Proof.
  intros Hknown key assembly'. subst assembly'. unfold recordedAssembly.
  rewrite Hknown. cbn [default parts asm_totalParts asm_metadata]. unfold id. fold key.
  split; [reflexivity|]. split; [reflexivity|]. split; [reflexivity|].
  intros [old Hold].
  assert (Hsize : size (<[key := uploadId]> (parts assembly)) = size (parts assembly)).
  { rewrite <- (insert_delete_eq (parts assembly) key uploadId).
    rewrite <- (insert_delete_id (parts assembly) key old Hold) at 2.
    rewrite !map_size_insert_None by apply lookup_delete_eq. reflexivity. }
  split; [exact Hsize|].
  intros Hwait. apply handlePartCompletion_waiting.
  unfold recordedAssembly. rewrite Hknown. cbn [default]. unfold id. fold key.
  unfold allPartsReceived in *. cbn [asm_totalParts parts].
  match goal with |- context [size ?m] =>
    replace (size m) with (size (parts assembly)) by (symmetry; exact Hsize) end.
  exact Hwait.
Qed.

Lemma known_group_records_part_witness :
  size (parts (recordedAssembly afterPart2 "p2b" (partMetadata "2"))) = 1%nat /\
  @handlePartCompletion plainEnv exampleCodec "p2b" (partMetadata "2") afterPart2
  = (Ok false, recorded afterPart2 "p2b" (partMetadata "2")).
Proof.
  destruct (known_group_records_part plainEnv exampleCodec "p2b" (partMetadata "2")
              afterPart2
              {| parts := {[ Some 2 := "p2"%string ]}; asm_totalParts := Some 3;
                 asm_metadata := partMetadata "2" |})
    as (_ & _ & _ & Hrepeat).
  - vm_compute. reflexivity.
  - destruct Hrepeat as (Hsize & Hwait).
    + vm_compute. eauto.
    + split; [rewrite Hsize; reflexivity | apply Hwait; reflexivity].
Defined.

(** X23: [updateAssembledMetadata] never throws and touches nothing but the
    sidecar of the assembled file.  When that sidecar is missing, does not
    parse or cannot be written, nothing changes at all; otherwise the new
    sidecar keeps the creation date, records the parsed [originalFileSize]
    (0 when it is absent) as both size and offset, and carries none of the
    multipart fields, so the assembled file no longer reads as a part. *)
Theorem updateAssembledMetadata_rewrites (env : Env) (codec : JsonCodec)
    (fileId : string) (meta : UploadMetadata) (s : Server) :
  exists s',
    updateAssembledMetadata env fileId meta s = (Ok tt, s') /\
    assemblies s' = assemblies s /\
    (forall p, p <> staged env (fileId +:+ ".json") -> fs s' !! p = fs s !! p) /\
    match sidecar env s fileId with
    | None => s' = s
    | Some original =>
        if denied env (staged env (fileId +:+ ".json")) then s' = s
        else
          exists info,
            sidecar env s' fileId = Some info /\
            ui_id info = fileId /\
            ui_creation_date info = ui_creation_date original /\
            ui_size info = parseInt (orElse (originalFileSize meta) "0") /\
            ui_offset info = ui_size info /\
            isMultipartUpload (ui_metadata info) = false /\
            originalFileSize (ui_metadata info) = None /\
            filename (ui_metadata info) = Some (orElse (filename meta) "") /\
            destinationPath (ui_metadata info) = destinationPath meta
    end.
Proof.
  eexists. split; [apply updateAssembledMetadata_eq|].
  unfold sidecar.
  destruct (fs s !! staged env (fileId +:+ ".json") ≫= parse) as [original|];
    [|auto].
  destruct (denied env (staged env (fileId +:+ ".json"))); [auto|].
  cbn [fs assemblies]. split; [reflexivity|].
  split; [intros p Hp; apply lookup_insert_ne; congruence|].
  exists (assembledInfo fileId meta original).
  rewrite lookup_insert_eq. cbn [mbind option_bind]. rewrite parse_stringify.
  repeat split; reflexivity.
Qed.

(** ** The client: the queue *)

Lemma prefix_append (a b : string) : String.prefix a (a +:+ b) = true.
Proof.
  induction a as [|c a IH]; simpl; [destruct b; reflexivity|].
  destruct (Ascii.ascii_dec c c); [exact IH | congruence].
Qed.

(** X25: [handleFileSelection] appends to the queue and never lets it grow past
    [maxFileSelection]: the old entries stay in place, the new ones are
    pending entries for a leading segment of the selection, the queue ends
    with [max(len, min(maxFileSelection, len + selected))] entries, and the
    message is empty exactly when the whole selection fitted. *)
Theorem handleFileSelection_bound (maxFileSelection : Z) (generateId : nat -> string)
    (files : list ClientFile) (h : Hook) :
  let h' := handleFileSelection maxFileSelection generateId (Some files) h in
  let len := Z.of_nat (length (fileQueue h)) in
  let selected := Z.of_nat (length files) in
  (exists added,
     fileQueue h' = fileQueue h ++ added /\
     map qe_file added = take (length added) files /\
     Forall (fun f => qe_status f = pending /\ qe_progress f = 0 /\
                      qe_name f = cf_name (qe_file f) /\
                      qe_size f = Z.of_nat (length (cf_bytes (qe_file f)))) added) /\
  Z.of_nat (length (fileQueue h')) = Z.max len (Z.min maxFileSelection (len + selected)) /\
  (len <= maxFileSelection -> Z.of_nat (length (fileQueue h')) <= maxFileSelection) /\
  (message h' = EmptyString <-> len + selected <= maxFileSelection) /\
  activeUploads h' = activeUploads h.
Proof.
  intros h' len selected. subst h'. unfold handleFileSelection. fold len selected.
  assert (Hadded : forall l : list ClientFile,
    let added := imap (fun i file =>
                    {| qe_id := generateId i; qe_file := file; qe_status := pending;
                       qe_progress := 0; qe_error := None; qe_name := cf_name file;
                       qe_size := Z.of_nat (length (cf_bytes file));
                       qe_type := cf_type file; qe_uploadedBytes := Some 0 |}) l in
    map qe_file added = l /\ length added = length l /\
    Forall (fun f => qe_status f = pending /\ qe_progress f = 0 /\
                     qe_name f = cf_name (qe_file f) /\
                     qe_size f = Z.of_nat (length (cf_bytes (qe_file f)))) added).
  { intros l. generalize generateId. induction l as [|file l IH]; intros gen.
    - cbn. auto.
    - cbn [imap map length]. destruct (IH (gen ∘ S)) as (H1 & H2 & H3).
      split; [f_equal; exact H1|]. split; [f_equal; exact H2|].
      constructor; [cbn; auto | exact H3]. }
  destruct (Z.gtb_spec (len + selected) maxFileSelection) as [Hover|Hfits]; cbn [andb].
  - destruct (Z.leb_spec (maxFileSelection - len) 0) as [Hfull|Hroom].
    + cbn [fileQueue message activeUploads].
      split.
      { exists []. rewrite app_nil_r. auto. }
      split; [lia|]. split; [lia|]. split; [|reflexivity].
      split; [discriminate | lia].
    + cbn [fileQueue message activeUploads].
      destruct (Hadded (take (Z.to_nat (maxFileSelection - len)) files)) as (H1 & H2 & H3).
      rewrite length_take in H2.
      split.
      { eexists. split; [reflexivity|]. split; [|exact H3].
        rewrite H1, H2. f_equal. subst len selected. lia. }
      rewrite length_app, H2. subst len selected.
      split; [lia|]. split; [lia|]. split; [|reflexivity].
      split; [discriminate | lia].
  - cbn [fileQueue message activeUploads].
    destruct (Hadded files) as (H1 & H2 & H3).
    split.
    { eexists. split; [reflexivity|]. split; [|exact H3].
      rewrite H1, H2, firstn_all. reflexivity. }
    rewrite length_app, H2. subst len selected.
    split; [lia|]. split; [lia|]. split; [|reflexivity].
    split; [lia | reflexivity].
Qed.

(** X26: [removeFile] leaves no entry with the id in the queue and keeps every
    other entry in order.  It aborts and forgets exactly the active uploads
    whose key starts with the id, which covers the file's complete upload and
    each of its part uploads; uploads with other keys stay active. *)
Theorem removeFile_aborts (fileId : string) (h : Hook) :
  let h' := removeFile fileId h in
  fileQueue h' = List.filter (fun f => negb (String.eqb (qe_id f) fileId)) (fileQueue h) /\
  Forall (fun f => qe_id f <> fileId) (fileQueue h') /\
  (forall key, key ∈ activeUploads h ->
     (key ∈ activeUploads h' <-> startsWith key fileId = false) /\
     (startsWith key fileId = true -> key ∈ abortedUploads h')) /\
  (forall key, key ∈ activeUploads h ->
     key = completeKey fileId \/ (exists i, key = partKeyOf fileId i) ->
     key ∈ abortedUploads h' /\ key ∉ activeUploads h') /\
  abortedUploads h ⊆ abortedUploads h' /\
  activeUploads h' ⊆ activeUploads h.
Proof.
  intros h'. subst h'. unfold removeFile. cbn [fileQueue activeUploads abortedUploads].
  split; [reflexivity|]. split.
  { apply Forall_forall. intros f Hf.
    apply list_elem_of_In, filter_In in Hf as [_ Hf].
    apply negb_true_iff, String.eqb_neq in Hf. exact Hf. }
  split.
  { intros key Hkey. split.
    - rewrite elem_of_filter. tauto.
    - intros Hstarts. apply elem_of_union_r, elem_of_filter. auto. }
  split.
  { intros key Hkey Hown.
    assert (Hstarts : startsWith key fileId = true).
    { unfold startsWith. destruct Hown as [->|[i ->]].
      - unfold completeKey. clear Hkey.
        induction fileId as [|c a IH]; simpl; [reflexivity|].
        destruct (Ascii.ascii_dec c c); [exact IH | congruence].
      - apply prefix_append. }
    split.
    - apply elem_of_union_r, elem_of_filter. auto.
    - rewrite elem_of_filter. intros [Hno _]. congruence. }
  split; [apply union_subseteq_l|].
  intros key Hkey. apply elem_of_filter in Hkey. tauto.
Qed.

(** X28: clearing finished or pending entries never drops an entry that is
    uploading and never aborts an upload; the two clearings commute, and
    together they leave exactly the uploading entries, in order.  [clearQueue]
    empties the queue and aborts every active upload. *)
Theorem clearing_keeps_uploading (h : Hook) :
  let isUploading := fun f => match qe_status f with uploading => true | _ => false end in
  List.filter isUploading (fileQueue (clearCompleted h))
    = List.filter isUploading (fileQueue h) /\
  List.filter isUploading (fileQueue (clearPending h))
    = List.filter isUploading (fileQueue h) /\
  fileQueue (clearPending (clearCompleted h)) = List.filter isUploading (fileQueue h) /\
  fileQueue (clearCompleted (clearPending h)) = List.filter isUploading (fileQueue h) /\
  activeUploads (clearCompleted h) = activeUploads h /\
  activeUploads (clearPending h) = activeUploads h /\
  abortedUploads (clearPending (clearCompleted h)) = abortedUploads h /\
  fileQueue (clearQueue h) = [] /\
  activeUploads (clearQueue h) = ∅ /\
  activeUploads h ⊆ abortedUploads (clearQueue h).
Proof.
  intros isUploading. unfold clearCompleted, clearPending, clearQueue.
  cbn [fileQueue activeUploads abortedUploads].
  assert (Hff : forall (p q r : QueueEntry -> bool) (l : list QueueEntry),
             (forall f, p f && q f = r f) ->
             List.filter p (List.filter q l) = List.filter r l).
  { intros p q r l Hpq. induction l as [|f l IH]; [reflexivity|].
    cbn [List.filter]. specialize (Hpq f).
    destruct (q f); cbn [List.filter].
    - rewrite andb_true_r in Hpq. rewrite Hpq. destruct (r f); rewrite IH; reflexivity.
    - rewrite andb_false_r in Hpq. rewrite <- Hpq. exact IH. }
  repeat split; try (apply Hff; intros f; subst isUploading; cbn;
                     destruct (qe_status f); reflexivity).
  apply union_subseteq_r.
Qed.

